(** * Unreal Engine PAK reader: a shallow embedding of [unreal_pak_extractor.py]

    The archive is a finite byte sequence.  The Python file object is
    modelled by a cursor over that sequence together with the list of the
    operations performed on it, so that statements such as "nothing is
    read" are statements about that list.  Exceptions are values of the
    result type; [try ... except Exception] is [try_except].

    Modelling conventions:
    - integers produced by [struct.unpack('<I' / '<Q' / '<B')] are [N];
      the signed ['<i'] and the difference [block_end - block_start] are [Z];
    - a Python [str] is the list of its code points;
    - [zlib.decompress] is a parameter of the development ([None] stands
      for [zlib.error]);
    - the archive file exists, is readable and does not change;
    - what the machine and its file system can serve is a parameter
      ([Host]): [f.seek] and [f.read] raise for the offsets and the sizes
      that the interpreter or the host refuses. *)

From Stdlib Require Import ZArith NArith List Lia Bool.
From Stdlib Require Import Strings.Byte Strings.String Strings.Ascii.
From stdpp Require Import gmap list.

Local Open Scope N_scope.

(** ** Bytes and [struct.unpack] *)

Definition bytes := list byte.

(** A Python [str]: the sequence of its code points. *)
Definition str := list N.

Inductive exn : Type :=
| struct_error   (* struct.error: buffer of the wrong size *)
| ValueError     (* read length below -1 *)
| OSError        (* seek before the start of the file, or to an offset
                    that the file system refuses *)
| OverflowError  (* read length that no bytes object can have *)
| MemoryError    (* read buffer that the host cannot allocate *)
| zlib_error.    (* zlib.error *)

Inductive res (A : Type) : Type :=
| Ok (a : A)
| Raise (e : exn).
Arguments Ok {A} a.
Arguments Raise {A} e.

(** Little-endian value of a byte string. *)
Fixpoint le_decode (b : bytes) : N :=
  match b with
  | [] => 0
  | x :: r => Byte.to_N x + 256 * le_decode r
  end.

(** [struct.unpack(fmt, b)[0]] for an unsigned little-endian format of
    [size] bytes: the buffer must have exactly that size. *)
Definition unpack_le (size : nat) (b : bytes) : res N :=
  if Nat.eqb (length b) size then Ok (le_decode b) else Raise struct_error.

Definition unpack_B : bytes -> res N := unpack_le 1.
Definition unpack_I : bytes -> res N := unpack_le 4.
Definition unpack_Q : bytes -> res N := unpack_le 8.

(** ['<i']: signed 32-bit, two's complement. *)
Definition unpack_i (b : bytes) : res Z :=
  match unpack_le 4 b with
  | Ok v => Ok (if v <? 2 ^ 31 then Z.of_N v else (Z.of_N v - 2 ^ 32)%Z)
  | Raise e => Raise e
  end.

(** [b[i:j]] for [0 <= i <= j]. *)
Definition slice (b : bytes) (i j : nat) : bytes := take (j - i) (drop i b).

(** ** The [str] methods the extractor uses *)

Definition NUL : N := 0.
Definition SLASH : N := 47.
Definition BACKSLASH : N := 92.

(** [s.startswith(p)] *)
Fixpoint startswith (s p : str) : bool :=
  match p, s with
  | [], _ => true
  | _ :: _, [] => false
  | c :: p', d :: s' => (c =? d) && startswith s' p'
  end.

(** [s.replace(old, new)] for one-character [old] and [new]. *)
Definition replace (old new : N) (s : str) : str :=
  map (fun c => if c =? old then new else c) s.

(** [s.lstrip(c)]: every leading [c] is removed. *)
Fixpoint lstrip (c : N) (s : str) : str :=
  match s with
  | [] => []
  | d :: s' => if d =? c then lstrip c s' else s
  end.

(** [s.rstrip(c)]: every trailing [c] is removed. *)
Fixpoint rstrip (c : N) (s : str) : str :=
  match s with
  | [] => []
  | d :: s' =>
      match rstrip c s' with
      | [] => if d =? c then [] else [d]
      | t => d :: t
      end
  end.

(** [b.decode('ascii', errors='ignore')]: bytes above 0x7F are dropped. *)
Fixpoint decode_ascii (b : bytes) : str :=
  match b with
  | [] => []
  | x :: r =>
      if Byte.to_N x <? 128 then Byte.to_N x :: decode_ascii r
      else decode_ascii r
  end.

Definition code_unit (lo hi : byte) : N := Byte.to_N lo + 256 * Byte.to_N hi.
Definition is_surrogate (u : N) : bool := (0xD800 <=? u) && (u <? 0xE000).
Definition is_high_surrogate (u : N) : bool := (0xD800 <=? u) && (u <? 0xDC00).
Definition is_low_surrogate (u : N) : bool := (0xDC00 <=? u) && (u <? 0xE000).
Definition join_surrogates (hi lo : N) : N :=
  0x10000 + (N.lor (N.shiftl (hi - 0xD800) 10) (lo - 0xDC00)).

(** [b.decode('utf-16-le', errors='ignore')].  Code units are read two
    bytes at a time; a high surrogate followed by a low one gives one
    code point; a lone low surrogate and a high surrogate followed by
    another unit are dropped (two bytes); a high surrogate with fewer
    than two bytes after it, and a single trailing byte, drop the rest of
    the input. *)
Fixpoint decode_utf_16_le (b : bytes) : str :=
  match b with
  | lo :: hi :: r =>
      let u := code_unit lo hi in
      if negb (is_surrogate u) then u :: decode_utf_16_le r
      else if negb (is_high_surrogate u) then decode_utf_16_le r
      else
        match r with
        | lo2 :: hi2 :: r2 =>
            let u2 := code_unit lo2 hi2 in
            if is_low_surrogate u2 then join_surrogates u u2 :: decode_utf_16_le r2
            else decode_utf_16_le r
        | _ => []
        end
  | _ => []
  end.

(** ** Entries *)

Module UnrealPakEntry.

Record t : Type := mk {
  filename : str;
  offset : N;
  compressed_size : N;
  uncompressed_size : N;
  compression_method : N;
  timestamp : N;
  hash : bytes;
  compression_blocks : list (N * N);
  encrypted : bool;
  compression_block_size : N
}.

(** [compression_method != 0 and compressed_size != uncompressed_size] *)
Definition is_compressed (e : t) : bool :=
  negb (compression_method e =? 0)
  && negb (compressed_size e =? uncompressed_size e).

End UnrealPakEntry.

(** ** The extractor *)

Module UnrealPakExtractor.

Definition PAK_MAGIC : N := 0x5A6F12E1.

Definition COMPRESS_None : N := 0x00.
Definition COMPRESS_ZLIB : N := 0x01.
Definition COMPRESS_GZIP : N := 0x02.
Definition COMPRESS_Custom : N := 0x04.

Definition ENCRYPTED_FLAG : N := 0x01.

(** [zlib.MAX_WBITS] *)
Definition MAX_WBITS : Z := 15.

(** The attributes of the extractor object ([self]); [pak_file_path]
    is represented by the content of the file it names. *)
Record extractor : Type := mk {
  pak_version : N;
  index_offset : N;
  index_size : N;
  mount_point : str;
  encrypted : bool;
  entries : gmap str UnrealPakEntry.t
}.

(** [__init__] *)
Definition init : extractor :=
  {| pak_version := 0; index_offset := 0; index_size := 0;
     mount_point := []; encrypted := false; entries := ∅ |}.

(** *** The file object and the monad of the methods *)

(** What a method does to the archive file and to zlib, in order. *)
Inductive event : Type :=
| EvOpen                    (* open(self.pak_file_path, 'rb') *)
| EvSeek (pos : N)          (* f.seek(pos) *)
| EvSeekEnd (delta : Z)     (* f.seek(delta, 2) *)
| EvRead (n : Z)            (* f.read(n) *)
| EvZlib (wbits : Z).       (* zlib.decompress(_, wbits) *)

Record world : Type := World {
  w_self : extractor;
  w_pos : N;
  w_log : list event
}.

Definition M (A : Type) : Type := world -> res A * world.

(** The machine that runs the extractor.  [f.read(n)] allocates a
    buffer of [n] bytes before it reads, and [f.seek(pos)] hands [pos] to
    the file system: [allocates n] tells whether the machine has the
    memory for the buffer, [seeks pos] whether the file system accepts
    the offset. *)
Class Host : Type := {
  allocates : N -> bool;
  seeks : N -> bool
}.

Definition ret {A} (a : A) : M A := fun w => (Ok a, w).

Definition bind {A B} (m : M A) (k : A -> M B) : M B :=
  fun w =>
    match m w with
    | (Ok a, w') => k a w'
    | (Raise e, w') => (Raise e, w')
    end.

Notation "x <~ m ;; k" := (bind m (fun x => k))
  (at level 100, m at next level, right associativity).
Notation "m ;;; k" := (bind m (fun _ => k))
  (at level 100, right associativity).

(** [try: body except Exception: handler]: what [body] did before it
    raised stays done. *)
Definition try_except {A} (body : M A) (handler : exn -> M A) : M A :=
  fun w =>
    match body w with
    | (Ok a, w') => (Ok a, w')
    | (Raise e, w') => handler e w'
    end.

Definition lift {A} (r : res A) : M A := fun w => (r, w).

Definition get_self : M extractor := fun w => (Ok (w_self w), w).

Definition set_self (f : extractor -> extractor) : M unit :=
  fun w => (Ok tt, World (f (w_self w)) (w_pos w) (w_log w)).

Definition log (ev : event) (w : world) : world :=
  World (w_self w) (w_pos w) (w_log w ++ [ev]).

Definition set_pos (p : N) (w : world) : world :=
  World (w_self w) p (w_log w).

Section Methods.

Context {host : Host}.

(** [zlib.decompress(data, wbits)]; [None] is [zlib.error]. *)
Variable zlib_decompress : Z -> bytes -> option bytes.

(** The content of the file at [self.pak_file_path]. *)
Variable pak : bytes.

Definition open_rb : M unit :=
  fun w => (Ok tt, set_pos 0 (log EvOpen w)).

(** The offsets that [f.seek] accepts: the offsets inside the file,
    which the file system that holds the file accepts, and beyond it
    the offsets below 2^63, the range of the offsets of the platform,
    that the file system of the host accepts. *)
Definition seekable (pos : N) : bool :=
  (pos <=? N.of_nat (length pak)) || ((pos <? 2 ^ 63) && seeks pos).

(** The sizes that [f.read] accepts: a buffer of at most 2^32 bytes,
    the most that the parsing of the footer and of the index asks for,
    and a buffer of at most the size of the file, which are taken to be
    allocated by every host; beyond these, the sizes of at most
    2^63 - 34, the longest bytes object, whose buffer the host
    allocates. *)
Definition readable (n : Z) : bool :=
  ((n <=? 2 ^ 32) || (n <=? Z.of_nat (length pak))
   || ((n <=? 2 ^ 63 - 34) && allocates (Z.to_N n)))%Z.

(** [f.seek(pos)], [pos >= 0]: [ValueError] when [pos] does not fit a
    file offset ("cannot fit 'int' into an offset-sized integer"),
    [OSError] when the file system refuses it. *)
Definition f_seek (pos : N) : M unit :=
  fun w =>
    if seekable pos then (Ok tt, set_pos pos (log (EvSeek pos) w))
    else if 2 ^ 63 <=? pos then (Raise ValueError, log (EvSeek pos) w)
    else (Raise OSError, log (EvSeek pos) w).

(** [f.seek(delta, 2)] *)
Definition f_seek_end (delta : Z) : M unit :=
  fun w =>
    let p := (Z.of_nat (length pak) + delta)%Z in
    if (p <? 0)%Z then (Raise OSError, log (EvSeekEnd delta) w)
    else (Ok tt, set_pos (Z.to_N p) (log (EvSeekEnd delta) w)).

(** [f.tell()] *)
Definition f_tell : M N := fun w => (Ok (w_pos w), w).

(** [f.read(n)] on the buffered reader that [open(_, 'rb')] returns: up
    to [n] bytes from the cursor, fewer at the end of the file; [n = -1]
    reads to the end; [n < -1] raises [ValueError] ("read length must be
    non-negative or -1"); [n] above 2^63 - 34 raises [OverflowError]
    ("cannot fit 'int' into an index-sized integer", "byte string is too
    large"), and a buffer that the host cannot allocate [MemoryError]. *)
Definition f_read (n : Z) : M bytes :=
  fun w =>
    if (n <? -1)%Z then (Raise ValueError, log (EvRead n) w)
    else if negb (readable n) then
      if (2 ^ 63 - 34 <? n)%Z then (Raise OverflowError, log (EvRead n) w)
      else (Raise MemoryError, log (EvRead n) w)
    else
      let rest := drop (N.to_nat (w_pos w)) pak in
      let got := if (n =? -1)%Z then rest else take (Z.to_nat n) rest in
      (Ok got, set_pos (w_pos w + N.of_nat (length got)) (log (EvRead n) w)).

Definition zlib_call (wbits : Z) (data : bytes) : M bytes :=
  fun w =>
    match zlib_decompress wbits data with
    | Some out => (Ok out, log (EvZlib wbits) w)
    | None => (Raise zlib_error, log (EvZlib wbits) w)
    end.

(** [struct.unpack('<Q', f.read(8))[0]] and the like *)
Definition read_Q : M N := b <~ f_read 8 ;; lift (unpack_Q b).
Definition read_I : M N := b <~ f_read 4 ;; lift (unpack_I b).

(** *** [read_string] *)
Definition read_string : M str :=
  b <~ f_read 4 ;;
  length <~ lift (unpack_i b) ;;
  if (length =? 0)%Z then ret []
  else if (length <? 0)%Z then
    let length := (- length)%Z in
    raw_string <~ f_read (length * 2) ;;
    ret (rstrip NUL (decode_utf_16_le raw_string))
  else
    raw_string <~ f_read length ;;
    ret (rstrip NUL (decode_ascii raw_string)).

(** *** [parse_footer] *)

(** The "Validate values" step (lines 146-151) that both footer layouts
    reach. *)
Definition validate_values (file_size : N) : M bool :=
  self <~ get_self ;;
  if (file_size <=? index_offset self) || (index_size self =? 0)
  then ret false
  else ret true.

Definition set_pak_version (v : N) : M unit :=
  set_self (fun s => mk v (index_offset s) (index_size s) (mount_point s)
                        (encrypted s) (entries s)).
Definition set_index_offset (v : N) : M unit :=
  set_self (fun s => mk (pak_version s) v (index_size s) (mount_point s)
                        (encrypted s) (entries s)).
Definition set_index_size (v : N) : M unit :=
  set_self (fun s => mk (pak_version s) (index_offset s) v (mount_point s)
                        (encrypted s) (entries s)).
Definition set_mount_point (v : str) : M unit :=
  set_self (fun s => mk (pak_version s) (index_offset s) (index_size s) v
                        (encrypted s) (entries s)).
Definition set_encrypted (v : bool) : M unit :=
  set_self (fun s => mk (pak_version s) (index_offset s) (index_size s)
                        (mount_point s) v (entries s)).
Definition set_entry (k : str) (e : UnrealPakEntry.t) : M unit :=
  set_self (fun s => mk (pak_version s) (index_offset s) (index_size s)
                        (mount_point s) (encrypted s) (<[k := e]> (entries s))).

Definition parse_footer : M bool :=
  open_rb ;;;
  f_seek_end 0 ;;;
  file_size <~ f_tell ;;
  if file_size <? 44 then ret false
  else
    f_seek_end (-44) ;;;
    footer_data <~ f_read 44 ;;
    try_except
      (encrypted_index <~ lift (unpack_B (slice footer_data 16 17)) ;;
       magic <~ lift (unpack_I (slice footer_data 17 21)) ;;
       if negb (magic =? PAK_MAGIC) then
         f_seek_end (-28) ;;;
         footer_data <~ f_read 28 ;;
         magic <~ lift (unpack_I (slice footer_data 0 4)) ;;
         if negb (magic =? PAK_MAGIC) then ret false
         else
           v <~ lift (unpack_I (slice footer_data 4 8)) ;;
           set_pak_version v ;;;
           o <~ lift (unpack_Q (slice footer_data 8 16)) ;;
           set_index_offset o ;;;
           s <~ lift (unpack_Q (slice footer_data 16 24)) ;;
           set_index_size s ;;;
           set_encrypted false ;;;
           validate_values file_size
       else
         v <~ lift (unpack_I (slice footer_data 21 25)) ;;
         set_pak_version v ;;;
         o <~ lift (unpack_Q (slice footer_data 25 33)) ;;
         set_index_offset o ;;;
         s <~ lift (unpack_Q (slice footer_data 33 41)) ;;
         set_index_size s ;;;
         set_encrypted (negb (encrypted_index =? 0)) ;;;
         validate_values file_size)
      (fun _ => ret false).

(** *** [parse_index] *)

(** Lines 192-198: drop the mount point when the name starts with
    it, turn backslashes into slashes, drop the leading slashes. *)
Definition normalize_path (mount_point filename : str) : str :=
  let filename :=
    if negb (bool_decide (mount_point = [])) && startswith filename mount_point
    then drop (length mount_point) filename
    else filename in
  let filename := replace BACKSLASH SLASH filename in
  lstrip SLASH filename.

(** [(compression_method & self.ENCRYPTED_FLAG) != 0] *)
Definition entry_encrypted (compression_method : N) : bool :=
  negb (N.land compression_method ENCRYPTED_FLAG =? 0).

(** The loop over [range(block_count)] (lines 219-222). *)
Fixpoint read_blocks (block_count : nat) (compression_blocks : list (N * N))
  : M (list (N * N)) :=
  match block_count with
  | O => ret compression_blocks
  | S n =>
      block_start <~ read_Q ;;
      block_end <~ read_Q ;;
      read_blocks n (compression_blocks ++ [(block_start, block_end)])
  end.

(** The body of the [try] of one iteration of the entry loop (lines
    186-240). *)
Definition parse_entry : M unit :=
  filename <~ read_string ;;
  if bool_decide (filename = []) then ret tt
  else
    self <~ get_self ;;
    let filename := normalize_path (mount_point self) filename in
    offset <~ read_Q ;;
    compressed_size <~ read_Q ;;
    uncompressed_size <~ read_Q ;;
    compression_method <~ read_I ;;
    timestamp <~ (if 8 <=? pak_version self then read_Q else ret 0) ;;
    file_hash <~ f_read 20 ;;
    compression_blocks <~
      (if negb (compression_method =? COMPRESS_None) then
         block_count <~ read_I ;;
         read_blocks (N.to_nat block_count) []
       else ret []) ;;
    let encrypted := entry_encrypted compression_method in
    let entry :=
      UnrealPakEntry.mk filename offset compressed_size uncompressed_size
        compression_method timestamp file_hash compression_blocks
        encrypted 0 in
    set_entry filename entry.

(** The loop over [range(entry_count)] (lines 184-244): an entry that
    raises is skipped, the cursor stays where the failed read left it. *)
Fixpoint parse_entries (entry_count : nat) : M unit :=
  match entry_count with
  | O => ret tt
  | S n =>
      try_except parse_entry (fun _ => ret tt) ;;;
      parse_entries n
  end.

Definition parse_index : M bool :=
  self <~ get_self ;;
  if encrypted self then ret false
  else
    try_except
      (open_rb ;;;
       f_seek (index_offset self) ;;;
       mp <~ read_string ;;
       set_mount_point mp ;;;
       entry_count <~ read_I ;;
       if 1000000 <? entry_count then ret false
       else
         parse_entries (N.to_nat entry_count) ;;;
         ret true)
      (fun _ => ret false).

(** *** [decompress_data] *)
Definition decompress_data (data : bytes) (method : N) : M bytes :=
  if method =? COMPRESS_ZLIB then zlib_call MAX_WBITS data
  else if method =? COMPRESS_GZIP then zlib_call (Z.lor MAX_WBITS 16) data
  else ret data.

(** *** [extract_file_data] *)

(** The loop over [entry.compression_blocks] (lines 295-307); the read
    of a block is outside the [try] that guards its decompression. *)
Fixpoint extract_blocks (entry : UnrealPakEntry.t) (blocks : list (N * N))
  (output_data : bytes) : M bytes :=
  match blocks with
  | [] => ret output_data
  | (block_start, block_end) :: rest =>
      f_seek (UnrealPakEntry.offset entry + block_start) ;;;
      compressed_block <~ f_read (Z.of_N block_end - Z.of_N block_start) ;;
      piece <~ try_except
                 (decompress_data compressed_block
                    (UnrealPakEntry.compression_method entry))
                 (fun _ => ret compressed_block) ;;
      extract_blocks entry rest (output_data ++ piece)
  end.

Definition extract_file_data (entry : UnrealPakEntry.t) : M (option bytes) :=
  if UnrealPakEntry.encrypted entry then ret None
  else
    try_except
      (open_rb ;;;
       f_seek (UnrealPakEntry.offset entry) ;;;
       if UnrealPakEntry.is_compressed entry then
         if negb (bool_decide (UnrealPakEntry.compression_blocks entry = [])) then
           out <~ extract_blocks entry (UnrealPakEntry.compression_blocks entry) [] ;;
           ret (Some out)
         else
           compressed_data <~ f_read (Z.of_N (UnrealPakEntry.compressed_size entry)) ;;
           out <~ decompress_data compressed_data
                    (UnrealPakEntry.compression_method entry) ;;
           ret (Some out)
       else
         out <~ f_read (Z.of_N (UnrealPakEntry.uncompressed_size entry)) ;;
         ret (Some out))
      (fun _ => ret None).

(** *** [parse] *)
Definition parse : M bool :=
  ok <~ parse_footer ;;
  if negb ok then ret false
  else
    ok <~ parse_index ;;
    if negb ok then ret false else ret true.

(** A method called on the object [self]: its result, the object
    afterwards, and what it did to the file. *)
Definition call {A} (m : M A) (self : extractor)
  : res A * extractor * list event :=
  let '(r, w) := m (World self 0 []) in (r, w_self w, w_log w).

End Methods.

End UnrealPakExtractor.

(** ** Concrete archives used by the examples *)

Import UnrealPakExtractor.

(** The last [k] bytes of a file of at least [k] bytes. *)
Definition last_bytes (k : nat) (b : bytes) : bytes := drop (length b - k) b.

(** The footer of the scenario: GUID, flag, magic [E1 12 6F 5A],
    version 8, index offset 256, index size 64, three trailing bytes. *)
Definition scenario_footer (guid_flag trailing : bytes) : bytes :=
  guid_flag ++ [xe1; x12; x6f; x5a] ++ [x08; x00; x00; x00]
  ++ [x00; x01; x00; x00; x00; x00; x00; x00]
  ++ [x40; x00; x00; x00; x00; x00; x00; x00] ++ trailing.

(** A file that consists of that footer alone. *)
Definition scenario_pak : bytes :=
  scenario_footer (repeat x00 17) (repeat x00 3).

(** A 44-byte file that ends with the older footer: magic, version 3,
    index offset 5, index size 7, four trailing bytes. *)
Definition older_pak : bytes :=
  repeat xff 16 ++ [xe1; x12; x6f; x5a] ++ [x03; x00; x00; x00]
  ++ [x05; x00; x00; x00; x00; x00; x00; x00]
  ++ [x07; x00; x00; x00; x00; x00; x00; x00] ++ repeat x00 4.

(** The scenario footer at the end of a file of 301 bytes. *)
Definition scenario_pak_301 : bytes := repeat x00 257 ++ scenario_pak.

(** The condition under which [parse_footer] passes its "Validate
    values" step (line 147, negated). *)
Definition index_region_valid (file_size index_offset index_size : N) : bool :=
  negb ((file_size <=? index_offset) || (index_size =? 0)).

(** What [parse_footer] does to the file when the newer layout matches,
    and when it falls back to the older one. *)
Definition newer_footer_log : list event :=
  [EvOpen; EvSeekEnd 0; EvSeekEnd (-44); EvRead 44].
Definition older_footer_log : list event :=
  newer_footer_log ++ [EvSeekEnd (-28); EvRead 28].

(** *** Extraction, as values *)

(** [f.seek(pos); f.read(n)] on the archive, for [n >= 0]. *)
Definition read_at (pak : bytes) (pos n : N) : bytes :=
  take (N.to_nat n) (drop (N.to_nat pos) pak).

(** The value of [decompress_data data method]; [None] where it raises. *)
Definition decompressed (zlib_decompress : Z -> bytes -> option bytes)
  (data : bytes) (method : N) : option bytes :=
  if method =? COMPRESS_ZLIB then zlib_decompress MAX_WBITS data
  else if method =? COMPRESS_GZIP then zlib_decompress (Z.lor MAX_WBITS 16) data
  else Some data.

(** The calls [decompress_data _ method] makes to zlib. *)
Definition codec_events (method : N) : list event :=
  if method =? COMPRESS_ZLIB then [EvZlib MAX_WBITS]
  else if method =? COMPRESS_GZIP then [EvZlib (Z.lor MAX_WBITS 16)]
  else [].



(** A stand-in for zlib in the examples: a stream is accepted when it
    starts with the byte 0x78, and decompresses to the rest of it twice. *)
Definition toy_zlib (wbits : Z) (data : bytes) : option bytes :=
  match data with
  | x78 :: r => Some (r ++ r)
  | _ => None
  end.

(** Ten bytes of payload. *)
Definition ten_bytes : bytes :=
  [x30; x31; x32; x33; x34; x35; x36; x37; x38; x39].

(** An entry stored without compression: method [None], five bytes at
    offset 2. *)
Definition stored_entry : UnrealPakEntry.t :=
  UnrealPakEntry.mk [97] 2 5 5 COMPRESS_None 0 [] [] false 0.

(** An entry with the unknown method code 0x08 and equal sizes. *)
Definition method8_entry : UnrealPakEntry.t :=
  UnrealPakEntry.mk [98] 2 5 5 0x08 0 [] [] false 0.

(** An entry whose range [4, 14) ends after the ten bytes of the file. *)
Definition overlong_entry : UnrealPakEntry.t :=
  UnrealPakEntry.mk [99] 4 10 10 COMPRESS_None 0 [] [] false 0.

(** Seven bytes of payload for three blocks; the first and the third
    start with 0x78, the second does not. *)
Definition blocks_pak : bytes := [x78; x41; x42; x51; x52; x78; x61].



(** The result of a call and what it did to the file, without the
    object. *)
Definition outcome {A} (x : res A * extractor * list event)
  : res A * list event :=
  (x.1.1, x.2).

(** The object with another entry mapping. *)
Definition with_entries (self : extractor) (m : gmap str UnrealPakEntry.t)
  : extractor :=
  mk (pak_version self) (index_offset self) (index_size self)
     (mount_point self) (encrypted self) m.

(** An unsigned 64-bit and an unsigned 32-bit field that hold a value
    below 256. *)
Definition u64 (b : byte) : bytes := b :: repeat x00 7.
Definition u32 (b : byte) : bytes := b :: repeat x00 3.

(** An archive of version 8 with eight bytes of payload and two
    entries under the mount point "../": "../a", stored, four bytes at
    offset 0; and "z", Zlib (method 0x01), four bytes at offset 4 in one
    block.  The index starts at offset 8 and has 159 bytes. *)
Definition sample_payload : bytes := [x78; x41; x42; x43; x78; x45; x46; x47].

Definition sample_index : bytes :=
  (u32 x04 ++ [x2e; x2e; x2f; x00])                  (* mount point "../" *)
  ++ u32 x02                                          (* entry count *)
  ++ (u32 x05 ++ [x2e; x2e; x2f; x61; x00])           (* "../a" *)
  ++ u64 x00 ++ u64 x04 ++ u64 x04 ++ u32 x00         (* offset, sizes, method *)
  ++ u64 x2a ++ repeat x00 20                         (* timestamp, hash *)
  ++ (u32 x02 ++ [x7a; x00])                          (* "z" *)
  ++ u64 x04 ++ u64 x04 ++ u64 x06 ++ u32 x01         (* offset, sizes, method *)
  ++ u64 x2a ++ repeat x00 20                         (* timestamp, hash *)
  ++ u32 x01 ++ u64 x00 ++ u64 x04.                   (* one block: (0, 4) *)

Definition sample_footer (flag : byte) : bytes :=
  repeat x00 16 ++ [flag] ++ [xe1; x12; x6f; x5a] ++ u32 x08
  ++ u64 x08 ++ u64 x9f ++ repeat x00 3.

Definition sample_pak : bytes :=
  sample_payload ++ sample_index ++ sample_footer x00.

(** The same archive with the encrypted-index flag set in the footer. *)
Definition sample_pak_encrypted_index : bytes :=
  sample_payload ++ sample_index ++ sample_footer x01.

(** The two entries of [sample_pak] as [parse] builds them. *)
Definition sample_entry_a : UnrealPakEntry.t :=
  UnrealPakEntry.mk [97] 0 4 4 COMPRESS_None 42 (repeat x00 20) [] false 0.
Definition sample_entry_z : UnrealPakEntry.t :=
  UnrealPakEntry.mk [122] 4 4 6 COMPRESS_ZLIB 42 (repeat x00 20) [(0, 4)] true 0.

(** *** Properties of methods *)

(** A method that neither reads nor changes the object: its result, the
    cursor and the log do not depend on it. *)
Definition self_frame {A} (m : M A) : Prop :=
  forall p l, exists r p' l',
    forall s, m (World s p l) = (r, World s p' l').

(** A method that keeps a property of the object. *)
Definition preserves (P : extractor -> Prop) {A} (m : M A) : Prop :=
  forall w, P (w_self w) -> P (w_self (m w).2).

(** The encrypted flag of an entry is the one line 225 derives from its
    compression method. *)
Definition flag_derived (e : UnrealPakEntry.t) : Prop :=
  UnrealPakEntry.encrypted e = entry_encrypted (UnrealPakEntry.compression_method e).

Definition entries_derived (self : extractor) : Prop :=
  map_Forall (fun _ e => flag_derived e) (entries self).

(** *** Strings *)

(** Following the words of the specification of the string codec, not
    the code: "strip one trailing null terminator if present". *)
Definition strip_one_trailing_null (s : str) : str :=
  match last s with
  | Some c => if c =? NUL then removelast s else s
  | None => s
  end.

(** A narrow string of length 3, "a" followed by two nulls, and a wide
    string of length -3, "a" followed by two null code units. *)
Definition narrow_two_nulls : bytes :=
  [x03; x00; x00; x00] ++ [x61; x00; x00].
Definition wide_two_nulls : bytes :=
  [xfd; xff; xff; xff] ++ [x61; x00; x00; x00; x00; x00].

(** A narrow string of length 4, "abc" and its terminator. *)
Definition narrow_abc : bytes := [x04; x00; x00; x00] ++ [x61; x62; x63; x00].

(** The mount point "../" and the raw path "../../x". *)
Definition dotdot_mount : str := [46; 46; 47].
Definition dotdot_path : str := [46; 46; 47; 46; 46; 47; 120].

(** ** The writer of [pak_manager.py] *)

(** [struct.pack]: the value must fit the format, or [struct.error] is
    raised. *)
Definition byte_of_N (n : N) : byte := default x00 (Byte.of_N n).

Fixpoint le_encode (size : nat) (v : N) : bytes :=
  match size with
  | O => []
  | S k => byte_of_N (v mod 256) :: le_encode k (v / 256)
  end.

Definition pack_le (size : nat) (v : Z) : res bytes :=
  if ((0 <=? v) && (v <? 256 ^ Z.of_nat size))%Z
  then Ok (le_encode size (Z.to_N v))
  else Raise struct_error.

Definition pack_B : Z -> res bytes := pack_le 1.
Definition pack_I : Z -> res bytes := pack_le 4.
Definition pack_Q : Z -> res bytes := pack_le 8.

(** ['<i']: signed 32-bit, two's complement. *)
Definition pack_i (v : Z) : res bytes :=
  if ((- 2 ^ 31 <=? v) && (v <? 2 ^ 31))%Z
  then Ok (le_encode 4 (Z.to_N (v mod 2 ^ 32)))
  else Raise struct_error.

(** [s.encode('utf-8')], one character: a surrogate cannot be encoded
    and raises [UnicodeEncodeError], a [ValueError]; a [str] holds no
    value above 0x10FFFF. *)
Definition utf8_char (c : N) : res bytes :=
  if c <? 0x80 then Ok [byte_of_N c]
  else if c <? 0x800 then
    Ok [byte_of_N (0xC0 + c / 64); byte_of_N (0x80 + c mod 64)]
  else if is_surrogate c then Raise ValueError
  else if c <? 0x10000 then
    Ok [byte_of_N (0xE0 + c / 4096); byte_of_N (0x80 + (c / 64) mod 64);
        byte_of_N (0x80 + c mod 64)]
  else if c <? 0x110000 then
    Ok [byte_of_N (0xF0 + c / 262144); byte_of_N (0x80 + (c / 4096) mod 64);
        byte_of_N (0x80 + (c / 64) mod 64); byte_of_N (0x80 + c mod 64)]
  else Raise ValueError.

Fixpoint utf8_encode (s : str) : res bytes :=
  match s with
  | [] => Ok []
  | c :: s' =>
      match utf8_char c with
      | Ok b =>
          match utf8_encode s' with
          | Ok r => Ok (b ++ r)
          | Raise e => Raise e
          end
      | Raise e => Raise e
      end
  end.

Module PAKManager.

(** The output file, opened with ['wb'] and only appended to: the
    state is what has been written, [pak.tell()] its length. *)
Definition W (A : Type) : Type := bytes -> res A * bytes.

Definition w_ret {A} (a : A) : W A := fun out => (Ok a, out).

Definition w_bind {A B} (m : W A) (k : A -> W B) : W B :=
  fun out =>
    match m out with
    | (Ok a, out') => k a out'
    | (Raise e, out') => (Raise e, out')
    end.

Notation "x <<~ m ;> k" := (w_bind m (fun x => k))
  (at level 100, m at next level, right associativity).
Notation "m ;> k" := (w_bind m (fun _ => k))
  (at level 100, right associativity).

Definition w_lift {A} (r : res A) : W A := fun out => (r, out).

(** [pak.write(b)] *)
Definition write (b : bytes) : W unit := fun out => (Ok tt, out ++ b).

(** [pak.write(struct.pack(...))]: the packing comes first. *)
Definition write_packed (r : res bytes) : W unit :=
  fun out =>
    match r with
    | Ok b => (Ok tt, out ++ b)
    | Raise e => (Raise e, out)
    end.

(** [pak.tell()] *)
Definition tell : W Z := fun out => (Ok (Z.of_nat (length out)), out).

(** One file of [files_to_pack] with what the loop reads of it: its
    path relative to the source directory, its content and
    [int(os.path.getmtime(full_path))]. *)
Record packed_file : Type := PackedFile {
  rel_path : str;
  file_data : bytes;
  mtime : Z
}.

(** One dictionary of [file_entries]. *)
Record file_entry : Type := FileEntry {
  fe_filename : str;
  fe_offset : Z;
  fe_size : Z;
  fe_compressed_size : Z;
  fe_compression : Z;
  fe_timestamp : Z;
  fe_hash : bytes
}.

Section Writer.

(** [hashlib.sha1(data).digest()] *)
Variable sha1 : bytes -> bytes.

(** [self.extractor], [None] before a PAK file has been unpacked. *)
Variable extractor : option UnrealPakExtractor.extractor.

(** [_write_string] *)
Definition _write_string (s : str) : W unit :=
  if bool_decide (s = []) then write_packed (pack_i 0)
  else
    b <<~ w_lift (utf8_encode s) ;>
    let encoded := b ++ [x00] in
    write_packed (pack_i (Z.of_nat (length encoded))) ;>
    write encoded.

(** The loop that writes the file data (lines 271-294). *)
Fixpoint write_files (files_to_pack : list packed_file) (current_offset : Z)
  (file_entries : list file_entry) : W (Z * list file_entry) :=
  match files_to_pack with
  | [] => w_ret (current_offset, file_entries)
  | f :: rest =>
      let file_size := Z.of_nat (length (file_data f)) in
      write (file_data f) ;>
      write_files rest (current_offset + file_size)
        (file_entries
         ++ [FileEntry (rel_path f) current_offset file_size file_size 0
                       (mtime f) (sha1 (file_data f))])
  end.

(** The loop that writes the index entries (lines 310-327). *)
Fixpoint write_entries (file_entries : list file_entry) : W unit :=
  match file_entries with
  | [] => w_ret tt
  | entry :: rest =>
      _write_string (fe_filename entry) ;>
      write_packed (pack_Q (fe_offset entry)) ;>
      write_packed (pack_Q (fe_compressed_size entry)) ;>
      write_packed (pack_Q (fe_size entry)) ;>
      write_packed (pack_I (fe_compression entry)) ;>
      write_packed (pack_Q (fe_timestamp entry)) ;>
      write (fe_hash entry) ;>
      write_packed (pack_I 0) ;>
      write_entries rest
  end.

(** The mount point "../../../" that is written when there is no
    extractor. *)
Definition default_mount_point : str := [46; 46; 47; 46; 46; 47; 46; 46; 47].

(** [_create_pak_file], from the list of the files that [os.walk]
    found. *)
Definition _create_pak_file (files_to_pack : list packed_file) : W unit :=
  write (repeat x00 1024) ;>
  r <<~ write_files files_to_pack 1024 [] ;>
  let current_offset := r.1 in
  let file_entries := r.2 in
  let index_offset := current_offset in
  let mount_point :=
    match extractor with
    | Some x => UnrealPakExtractor.mount_point x
    | None => default_mount_point
    end in
  _write_string mount_point ;>
  write_packed (pack_I (Z.of_nat (length file_entries))) ;>
  write_entries file_entries ;>
  t <<~ tell ;>
  let index_size := (current_offset - index_offset + t - current_offset)%Z in
  write (repeat x00 16) ;>
  write_packed (pack_B 0) ;>
  write_packed (pack_I 0x5A6F12E1) ;>
  let version :=
    match extractor with
    | Some x => Z.of_N (UnrealPakExtractor.pak_version x)
    | None => 8%Z
    end in
  write_packed (pack_I version) ;>
  write_packed (pack_Q index_offset) ;>
  write_packed (pack_Q index_size).

(** The file that a call leaves on the disk, and whether the call
    raised. *)
Definition written {A} (m : W A) : res A * bytes := m [].

End Writer.

End PAKManager.

(** *** What the writer writes, as values *)

Definition res_bind {A B} (r : res A) (k : A -> res B) : res B :=
  match r with
  | Ok a => k a
  | Raise e => Raise e
  end.

(** The bytes that [_write_string s] appends. *)
Definition string_bytes (s : str) : res bytes :=
  if bool_decide (s = []) then pack_i 0
  else
    res_bind (utf8_encode s) (fun b =>
    res_bind (pack_i (Z.of_nat (length (b ++ [x00])))) (fun h =>
    Ok (h ++ b ++ [x00]))).

(** The dictionaries that the loop over [files_to_pack] collects, from
    the offset [current_offset] on. *)
Fixpoint entries_from (sha1 : bytes -> bytes) (current_offset : Z)
  (files : list PAKManager.packed_file) : list PAKManager.file_entry :=
  match files with
  | [] => []
  | f :: rest =>
      let file_size := Z.of_nat (length (PAKManager.file_data f)) in
      PAKManager.FileEntry (PAKManager.rel_path f) current_offset file_size
        file_size 0 (PAKManager.mtime f) (sha1 (PAKManager.file_data f))
      :: entries_from sha1 (current_offset + file_size) rest
  end.

Definition total_size (files : list PAKManager.packed_file) : Z :=
  Z.of_nat (length (concat (map PAKManager.file_data files))).

(** The bytes that the loop over [file_entries] appends for one
    entry, and for all of them. *)
Definition entry_bytes (e : PAKManager.file_entry) : res bytes :=
  res_bind (string_bytes (PAKManager.fe_filename e)) (fun n =>
  res_bind (pack_Q (PAKManager.fe_offset e)) (fun o =>
  res_bind (pack_Q (PAKManager.fe_compressed_size e)) (fun c =>
  res_bind (pack_Q (PAKManager.fe_size e)) (fun u =>
  res_bind (pack_I (PAKManager.fe_compression e)) (fun m =>
  res_bind (pack_Q (PAKManager.fe_timestamp e)) (fun t =>
  res_bind (pack_I 0) (fun z =>
  Ok (n ++ o ++ c ++ u ++ m ++ t ++ PAKManager.fe_hash e ++ z)))))))).

Fixpoint entries_bytes (es : list PAKManager.file_entry) : res bytes :=
  match es with
  | [] => Ok []
  | e :: rest =>
      res_bind (entry_bytes e) (fun b =>
      res_bind (entries_bytes rest) (fun bs => Ok (b ++ bs)))
  end.

(** The mount point and the version that [_create_pak_file] writes. *)
Definition written_mount_point (extractor : option extractor) : str :=
  match extractor with
  | Some x => mount_point x
  | None => PAKManager.default_mount_point
  end.

Definition written_version (extractor : option extractor) : Z :=
  match extractor with
  | Some x => Z.of_N (pak_version x)
  | None => 8%Z
  end.

(** The 41 bytes that end the written file. *)
Definition written_footer (v4 o8 s8 : bytes) : bytes :=
  repeat x00 16 ++ [x00] ++ [xe1; x12; x6f; x5a] ++ v4 ++ o8 ++ s8.

(** The entry that the reader builds from the bytes of one written
    entry, under the mount point [mp] that it read. *)
Definition entry_read_back (mp : str) (e : PAKManager.file_entry)
  : UnrealPakEntry.t :=
  UnrealPakEntry.mk (normalize_path mp (PAKManager.fe_filename e))
    (Z.to_N (PAKManager.fe_offset e))
    (Z.to_N (PAKManager.fe_compressed_size e))
    (Z.to_N (PAKManager.fe_size e))
    0 (Z.to_N (PAKManager.fe_timestamp e)) (PAKManager.fe_hash e) [] false 0.

(** The mapping after the entries [es] have been stored in order. *)
Definition store_all (mp : str) (es : list PAKManager.file_entry)
  (m : gmap str UnrealPakEntry.t) : gmap str UnrealPakEntry.t :=
  foldl (fun m e => <[normalize_path mp (PAKManager.fe_filename e)
                      := entry_read_back mp e]> m) m es.

(** A path made of ASCII characters other than the null character,
    and not empty. *)
Definition ascii_path (s : str) : Prop :=
  s <> [] /\ Forall (fun c => 0 < c < 128) s.

(** Two files to pack, and the extractor of the sample archive. *)
Definition two_files : list PAKManager.packed_file :=
  [PAKManager.PackedFile [97] [x41; x42; x43] 42;
   PAKManager.PackedFile [100; 47; 98] [x44; x45] 43].

(** A stand-in for SHA-1 in the examples: twenty zero bytes. *)
Definition toy_sha1 (data : bytes) : bytes := repeat x00 20.

(** *** Triples *)

(** A method run on an object that satisfies [P] ends, when it returns
    [a], with an object that satisfies [Q a], and, when it raises, with
    an object that satisfies [E]. *)
Definition triple {A} (P : extractor -> Prop) (m : M A)
  (Q : A -> extractor -> Prop) (E : extractor -> Prop) : Prop :=
  forall w, P (w_self w) ->
    match m w with
    | (Ok a, w') => Q a (w_self w')
    | (Raise _, w') => E (w_self w')
    end.

(** A name as [parse_index] stores it: no backslash, no leading slash. *)
Definition normalized_name (name : str) : Prop :=
  Forall (fun c => c <> BACKSLASH) name /\ head name <> Some SLASH.

(** The key of an entry is its file name, and it is normalized. *)
Definition entry_named (name : str) (e : UnrealPakEntry.t) : Prop :=
  UnrealPakEntry.filename e = name /\ normalized_name name.

(** The fields of an entry lie in the ranges of the formats they were
    unpacked with; an archive of a version below 8 gives no timestamp,
    the method [None] gives no block table. *)
Definition entry_in_range (version : N) (e : UnrealPakEntry.t) : Prop :=
  UnrealPakEntry.offset e < 2 ^ 64
  /\ UnrealPakEntry.compressed_size e < 2 ^ 64
  /\ UnrealPakEntry.uncompressed_size e < 2 ^ 64
  /\ UnrealPakEntry.compression_method e < 2 ^ 32
  /\ UnrealPakEntry.timestamp e < 2 ^ 64
  /\ (version < 8 -> UnrealPakEntry.timestamp e = 0)
  /\ (length (UnrealPakEntry.hash e) <= 20)%nat
  /\ (UnrealPakEntry.compression_method e = COMPRESS_None ->
      UnrealPakEntry.compression_blocks e = [])
  /\ N.of_nat (length (UnrealPakEntry.compression_blocks e)) < 2 ^ 32
  /\ Forall (fun b : N * N => b.1 < 2 ^ 64 /\ b.2 < 2 ^ 64)
            (UnrealPakEntry.compression_blocks e).

(** A file of 28 bytes that is an older footer and nothing else. *)
Definition older_footer_alone : bytes :=
  [xe1; x12; x6f; x5a] ++ u32 x03 ++ u64 x00 ++ u64 x01 ++ repeat x00 4.

(** An object whose index offset lies two bytes before the end of
    [ten_bytes]. *)
Definition index_at_8 : extractor := mk 8 8 1 [] false ∅.

(** A Zlib entry without block table: four bytes at offset 0 of
    [blocks_pak]; the same at offset 3, where the stream does not start
    with 0x78; and an entry with the method [Custom]. *)
Definition whole_span_entry : UnrealPakEntry.t :=
  UnrealPakEntry.mk [102] 0 3 4 COMPRESS_GZIP 0 [] [] false 0.
Definition whole_span_bad_entry : UnrealPakEntry.t :=
  UnrealPakEntry.mk [103] 3 2 4 COMPRESS_GZIP 0 [] [] false 0.
Definition custom_codec_entry : UnrealPakEntry.t :=
  UnrealPakEntry.mk [104] 3 2 4 COMPRESS_Custom 0 [] [] false 0.

(** *** Served seeks and reads *)



(** An entry with method code 0x08 and equal sizes whose range [4, 14)
    ends after the ten bytes of the file. *)
Definition overlong_method8_entry : UnrealPakEntry.t :=
  UnrealPakEntry.mk [102] 4 10 10 0x08 0 [] [] false 0.

(** An entry stored without compression whose size field holds 2^63. *)
Definition huge_entry : UnrealPakEntry.t :=
  UnrealPakEntry.mk [103] 0 9223372036854775808 9223372036854775808
    COMPRESS_None 0 [] [] false 0.


(** *** The host of the examples *)

(** A host that allocates buffers of up to 2^32 bytes and whose file
    system accepts the offsets below 2^44 - 1; the examples run on
    it. *)
#[global] Instance sample_host : Host :=
  {| allocates := fun n => n <=? 4294967296;
     seeks := fun pos => pos <? 17592186044415 |}.

(** *** Reading back what was written *)

(** The characters that [decode('ascii', errors='ignore')] keeps of the
    UTF-8 encoding of a string. *)
Definition ascii_only (s : str) : str := filter (fun c => c < 128) s.

(** Run on the object [s] with the bytes [b] next at the cursor, the
    method [m] returns [a], leaves the object [s'] and the cursor just
    after [b]. *)
Definition consumes {A} (pak : bytes) (m : M A) (s : extractor) (b : bytes)
  (a : A) (s' : extractor) : Prop :=
  forall w rest,
    w_self w = s ->
    drop (N.to_nat (w_pos w)) pak = b ++ rest ->
    exists l,
      m w = (Ok a, World s' (w_pos w + N.of_nat (length b)) (w_log w ++ l)).

(** A text of ASCII characters other than the null character. *)
Definition ascii_text (s : str) : Prop := Forall (fun c => 0 < c < 128) s.

(** The object after [parse_index] has stored the entries [es] under
    the mount point [mp]. *)
Definition read_back (mp : str) (es : list PAKManager.file_entry)
  (self : extractor) : extractor :=
  mk (pak_version self) (index_offset self) (index_size self) mp false
     (store_all mp es (entries self)).

(** ** The file object *)

Section FileObject.

Context {host : Host}.

Variable pak : bytes.

Lemma unpack_le_ok size b :
  length b = size -> unpack_le size b = Ok (le_decode b).
Proof.
  intros H. unfold unpack_le. rewrite H, Nat.eqb_refl. reflexivity.
Qed.

Lemma le_decode_bound (b : bytes) : le_decode b < 256 ^ N.of_nat (length b).
Proof.
  induction b as [|x b IH]; [cbn; lia |].
  cbn [le_decode length]. rewrite Nat2N.inj_succ, N.pow_succ_r'.
  pose proof (Byte.to_N_bounded x). lia.
Qed.

Lemma unpack_le_bound size b v :
  unpack_le size b = Ok v -> v < 256 ^ N.of_nat size.
Proof.
  unfold unpack_le. destruct (Nat.eqb_spec (length b) size) as [<-|]; [| discriminate].
  intros [= <-]. apply le_decode_bound.
Qed.

Lemma unpack_i_bound b n :
  unpack_i b = Ok n -> (- 2147483648 <= n < 2147483648)%Z.
Proof.
  unfold unpack_i. destruct (unpack_le 4 b) as [v|] eqn:E; [| discriminate].
  apply unpack_le_bound in E. change (256 ^ N.of_nat 4) with 4294967296 in E.
  intros [= <-]. change (2 ^ 31) with 2147483648.
  change (2 ^ 32)%Z with 4294967296%Z.
  destruct (N.ltb_spec v 2147483648); lia.
Qed.

Lemma length_slice (b : bytes) i j :
  (j <= length b)%nat -> length (slice b i j) = (j - i)%nat.
Proof.
  intros H. unfold slice. rewrite length_take, length_drop. lia.
Qed.

Lemma length_last_bytes k (b : bytes) :
  (k <= length b)%nat -> length (last_bytes k b) = k.
Proof.
  intros H. unfold last_bytes. rewrite length_drop. lia.
Qed.

Lemma f_seek_end_ok delta w :
  (0 <= Z.of_nat (length pak) + delta)%Z ->
  f_seek_end pak delta w =
    (Ok tt, set_pos (Z.to_N (Z.of_nat (length pak) + delta))
              (log (EvSeekEnd delta) w)).
Proof.
  intros H. unfold f_seek_end.
  destruct (Z.ltb_spec (Z.of_nat (length pak) + delta) 0); [lia | reflexivity].
Qed.

Lemma readable_small n : (n <= 4294967296)%Z -> readable pak n = true.
Proof.
  intros H. unfold readable.
  change (2 ^ 32)%Z with 4294967296%Z.
  destruct (Z.leb_spec n 4294967296); [reflexivity | lia].
Qed.

Lemma readable_inside n :
  (n <= Z.of_nat (length pak))%Z -> readable pak n = true.
Proof.
  intros H. unfold readable.
  apply orb_true_iff. left. apply orb_true_iff. right.
  apply Z.leb_le. exact H.
Qed.

Lemma seekable_inside pos :
  pos <= N.of_nat (length pak) -> seekable pak pos = true.
Proof.
  intros H. unfold seekable.
  apply orb_true_iff. left. apply N.leb_le. exact H.
Qed.

Lemma f_seek_ok pos w :
  seekable pak pos = true ->
  f_seek pak pos w = (Ok tt, set_pos pos (log (EvSeek pos) w)).
Proof. intros H. unfold f_seek. rewrite H. reflexivity. Qed.

(** A seek that is not served raises, the cursor stays. *)
Lemma f_seek_refused pos w :
  seekable pak pos = false ->
  exists e, f_seek pak pos w = (Raise e, log (EvSeek pos) w).
Proof.
  intros H. unfold f_seek. rewrite H.
  destruct (2 ^ 63 <=? pos); eauto.
Qed.

Lemma f_read_ok n w :
  (0 <= n)%Z ->
  readable pak n = true ->
  f_read pak n w =
    let got := take (Z.to_nat n) (drop (N.to_nat (w_pos w)) pak) in
    (Ok got, set_pos (w_pos w + N.of_nat (length got)) (log (EvRead n) w)).
Proof.
  intros H Hr. unfold f_read.
  destruct (Z.ltb_spec n (-1)); [lia |].
  rewrite Hr. cbn [negb].
  destruct (Z.eqb_spec n (-1)); [lia | reflexivity].
Qed.

(** A read that is not served raises, the cursor stays. *)
Lemma f_read_refused n w :
  readable pak n = false ->
  exists e, f_read pak n w = (Raise e, log (EvRead n) w).
Proof.
  intros H. unfold f_read.
  destruct (n <? -1)%Z; [eauto |].
  rewrite H. cbn [negb].
  destruct (2 ^ 63 - 34 <? n)%Z; eauto.
Qed.

Lemma f_read_small n w :
  (0 <= n <= 4294967296)%Z ->
  f_read pak n w =
    let got := take (Z.to_nat n) (drop (N.to_nat (w_pos w)) pak) in
    (Ok got, set_pos (w_pos w + N.of_nat (length got)) (log (EvRead n) w)).
Proof.
  intros H. apply f_read_ok; [lia | apply readable_small; lia].
Qed.

(** Reading [k] bytes after [f.seek(-k, 2)] gives the last [k] bytes. *)
Lemma read_last_bytes (k : nat) w :
  (k <= length pak)%nat ->
  (Z.of_nat k <= 4294967296)%Z ->
  bind (f_seek_end pak (- Z.of_nat k)) (fun _ => f_read pak (Z.of_nat k)) w =
    (Ok (last_bytes k pak),
     set_pos (N.of_nat (length pak))
       (log (EvRead (Z.of_nat k)) (log (EvSeekEnd (- Z.of_nat k)) w))).
Proof.
  intros H Hk. unfold bind. rewrite f_seek_end_ok by lia.
  rewrite f_read_small by lia.
  cbn [set_pos log w_pos w_self w_log].
  replace (N.to_nat (Z.to_N (Z.of_nat (length pak) + - Z.of_nat k)))
    with (length pak - k)%nat by lia.
  fold (last_bytes k pak).
  rewrite Nat2Z.id, take_ge by (rewrite length_last_bytes; lia).
  rewrite length_last_bytes by lia.
  unfold set_pos, log; cbn. do 2 f_equal. lia.
Qed.

Lemma read_last_bytes_then {A} (k : nat) (K : bytes -> M A) w :
  (k <= length pak)%nat ->
  (Z.of_nat k <= 4294967296)%Z ->
  bind (f_seek_end pak (- Z.of_nat k))
       (fun _ => bind (f_read pak (Z.of_nat k)) K) w =
    K (last_bytes k pak)
      (set_pos (N.of_nat (length pak))
         (log (EvRead (Z.of_nat k)) (log (EvSeekEnd (- Z.of_nat k)) w))).
Proof.
  intros H Hk. pose proof (read_last_bytes k w H Hk) as E.
  unfold bind in *.
  destruct (f_seek_end pak (- Z.of_nat k) w) as [[[]|e] w1]; [|discriminate].
  rewrite E. reflexivity.
Qed.

End FileObject.

(** ** The footer *)

Section Footer.

Context {host : Host}.

Variable pak : bytes.
Hypothesis pak_size : (44 <= length pak)%nat.

Lemma parse_footer_unfold self :
  call (parse_footer pak) self =
    let new := last_bytes 44 pak in
    let old := last_bytes 28 pak in
    let file_size := N.of_nat (length pak) in
    if le_decode (slice new 17 21) =? PAK_MAGIC then
      (Ok (index_region_valid file_size
             (le_decode (slice new 25 33)) (le_decode (slice new 33 41))),
       mk (le_decode (slice new 21 25)) (le_decode (slice new 25 33))
          (le_decode (slice new 33 41)) (mount_point self)
          (negb (le_decode (slice new 16 17) =? 0)) (entries self),
       newer_footer_log)
    else if le_decode (slice old 0 4) =? PAK_MAGIC then
      (Ok (index_region_valid file_size
             (le_decode (slice old 8 16)) (le_decode (slice old 16 24))),
       mk (le_decode (slice old 4 8)) (le_decode (slice old 8 16))
          (le_decode (slice old 16 24)) (mount_point self)
          false (entries self),
       older_footer_log)
    else (Ok false, self, older_footer_log).
Proof.
  assert (Hn : length (last_bytes 44 pak) = 44%nat)
    by (apply length_last_bytes; lia).
  assert (Ho : length (last_bytes 28 pak) = 28%nat)
    by (apply length_last_bytes; lia).
  unfold call, parse_footer.
  unfold bind at 1. cbn [open_rb].
  unfold bind at 1. rewrite f_seek_end_ok by lia.
  unfold bind at 1. cbn [f_tell set_pos log w_pos w_self w_log].
  replace (Z.to_N (Z.of_nat (length pak) + 0)) with (N.of_nat (length pak))
    by lia.
  destruct (N.ltb_spec (N.of_nat (length pak)) 44); [lia |].
  rewrite (read_last_bytes_then pak 44) by lia.
  unfold try_except, unpack_B, unpack_I, unpack_Q.
  unfold bind at 1. unfold lift at 1.
  rewrite unpack_le_ok by (rewrite length_slice; lia).
  unfold bind at 1. unfold lift at 1.
  rewrite unpack_le_ok by (rewrite length_slice; lia).
  cbv zeta.
  destruct (le_decode (slice (last_bytes 44 pak) 17 21) =? PAK_MAGIC); cbn [negb].
  - rewrite !unpack_le_ok by (rewrite length_slice; lia).
    unfold index_region_valid.
    cbv [bind lift ret validate_values get_self set_self set_pak_version
         set_index_offset set_index_size set_encrypted set_pos log
         w_self w_pos w_log index_offset index_size].
    destruct (_ || _); reflexivity.
  - rewrite (read_last_bytes_then pak 28) by lia.
    unfold bind at 1. unfold lift at 1.
    rewrite unpack_le_ok by (rewrite length_slice; lia).
    destruct (le_decode (slice (last_bytes 28 pak) 0 4) =? PAK_MAGIC); cbn [negb].
    + rewrite !unpack_le_ok by (rewrite length_slice; lia).
      unfold index_region_valid.
      cbv [bind lift ret validate_values get_self set_self set_pak_version
           set_index_offset set_index_size set_encrypted set_pos log
           w_self w_pos w_log index_offset index_size].
      destruct (_ || _); reflexivity.
    + reflexivity.
Qed.

End Footer.

Lemma last_bytes_app (a b : bytes) : last_bytes (length b) (a ++ b) = b.
Proof.
  unfold last_bytes. rewrite length_app.
  replace (length a + length b - length b)%nat with (length a) by lia.
  apply drop_app_length.
Qed.

(** C1 (amended).  When the last 44 bytes carry the magic at [17..21],
    [parse_footer] sets version, index offset, index size and the
    encrypted flag from bytes [21..25], [25..33], [33..41] and [16] of
    those 44 bytes, after one seek and one read of 44 bytes; it returns
    [True] exactly when the index offset is below the file size and the
    index size is not zero.  The footer of the scenario gives version 8,
    index offset 256 and index size 64, and [True] in a file of more
    than 256 bytes. *)
Theorem parse_footer_newer_layout {host : Host} :
  (forall (pak : bytes) (self : extractor),
      (44 <= length pak)%nat ->
      le_decode (slice (last_bytes 44 pak) 17 21) = PAK_MAGIC ->
      call (parse_footer pak) self =
        (Ok (index_region_valid (N.of_nat (length pak))
               (le_decode (slice (last_bytes 44 pak) 25 33))
               (le_decode (slice (last_bytes 44 pak) 33 41))),
         mk (le_decode (slice (last_bytes 44 pak) 21 25))
            (le_decode (slice (last_bytes 44 pak) 25 33))
            (le_decode (slice (last_bytes 44 pak) 33 41))
            (mount_point self)
            (negb (le_decode (slice (last_bytes 44 pak) 16 17) =? 0))
            (entries self),
         newer_footer_log))
  /\ (forall (prefix guid_flag trailing : bytes) (self : extractor),
        length guid_flag = 17%nat ->
        length trailing = 3%nat ->
        exists flag : bool,
          call (parse_footer (prefix ++ scenario_footer guid_flag trailing)) self =
            (Ok (256 <? N.of_nat (length prefix + 44)),
             mk 8 256 64 (mount_point self) flag (entries self),
             newer_footer_log)).
Proof.
  split.
  - intros pak self Hsize Hmagic.
    rewrite parse_footer_unfold by assumption.
    cbv zeta. rewrite Hmagic, N.eqb_refl. reflexivity.
  - intros prefix g t self Hg Ht.
    assert (Hlen : length (scenario_footer g t) = 44%nat).
    { unfold scenario_footer. rewrite !length_app, Hg, Ht. reflexivity. }
    assert (Hlast : last_bytes 44 (prefix ++ scenario_footer g t)
                    = scenario_footer g t).
    { rewrite <- Hlen at 1. apply last_bytes_app. }
    rewrite parse_footer_unfold by (rewrite length_app; lia).
    cbv zeta. rewrite Hlast, length_app, Hlen.
    do 17 (destruct g as [|? g]; [discriminate Hg|]).
    destruct g; [|discriminate Hg].
    do 3 (destruct t as [|? t]; [discriminate Ht|]).
    destruct t; [|discriminate Ht].
    eexists.
    change (le_decode (slice (scenario_footer _ _) 17 21)) with PAK_MAGIC.
    rewrite N.eqb_refl.
    change (le_decode (slice (scenario_footer _ _) 21 25)) with 8.
    change (le_decode (slice (scenario_footer _ _) 25 33)) with 256.
    change (le_decode (slice (scenario_footer _ _) 33 41)) with 64.
    unfold index_region_valid. rewrite orb_false_r.
    f_equal. f_equal. f_equal.
    destruct (N.leb_spec (N.of_nat (length prefix + 44)) 256),
             (N.ltb_spec 256 (N.of_nat (length prefix + 44)));
      try reflexivity; lia.
Qed.

(** Witness of C1 (amended): the scenario footer at the end of a file
    of 301 bytes. *)
Lemma parse_footer_newer_layout_witness :
  (44 <= length scenario_pak_301)%nat
  /\ le_decode (slice (last_bytes 44 scenario_pak_301) 17 21) = PAK_MAGIC
  /\ call (parse_footer scenario_pak_301) init =
       (Ok true, mk 8 256 64 [] false ∅, newer_footer_log).
Proof.
  assert (H1 : (44 <= length scenario_pak_301)%nat) by (vm_compute; lia).
  assert (H2 : le_decode (slice (last_bytes 44 scenario_pak_301) 17 21)
               = PAK_MAGIC) by reflexivity.
  split; [exact H1 | split; [exact H2 |]].
  exact (proj1 parse_footer_newer_layout scenario_pak_301 init H1 H2).
Defined.

(** Counterexample to C1 as stated: a file that consists of the
    scenario footer alone has the magic at [17..21] of its last 44
    bytes, and [parse_footer] returns [False] on it, because the index
    offset 256 is not below the file size 44. *)
Lemma parse_footer_newer_layout_counterexample :
  (44 <= length scenario_pak)%nat
  /\ le_decode (slice (last_bytes 44 scenario_pak) 17 21) = PAK_MAGIC
  /\ call (parse_footer scenario_pak) init =
       (Ok false, mk 8 256 64 [] false ∅, newer_footer_log).
Proof.
  split; [vm_compute; lia | split; reflexivity].
Qed.

(** C2.  When the last 44 bytes do not carry the magic at [17..21],
    [parse_footer] seeks to 28 bytes before the end and reads 28 bytes;
    when these start with the magic, version, index offset and index
    size are taken from their bytes [4..8], [8..16], [16..24] and the
    encrypted flag is [False]; when they do not, the method returns
    [False] and leaves the object as it was. *)
Theorem parse_footer_older_layout {host : Host} :
  forall (pak : bytes) (self : extractor),
    (44 <= length pak)%nat ->
    le_decode (slice (last_bytes 44 pak) 17 21) <> PAK_MAGIC ->
    (le_decode (slice (last_bytes 28 pak) 0 4) = PAK_MAGIC ->
     call (parse_footer pak) self =
       (Ok (index_region_valid (N.of_nat (length pak))
              (le_decode (slice (last_bytes 28 pak) 8 16))
              (le_decode (slice (last_bytes 28 pak) 16 24))),
        mk (le_decode (slice (last_bytes 28 pak) 4 8))
           (le_decode (slice (last_bytes 28 pak) 8 16))
           (le_decode (slice (last_bytes 28 pak) 16 24))
           (mount_point self) false (entries self),
        older_footer_log))
    /\ (le_decode (slice (last_bytes 28 pak) 0 4) <> PAK_MAGIC ->
        call (parse_footer pak) self = (Ok false, self, older_footer_log)).
Proof.
  intros pak self Hsize Hnew.
  rewrite parse_footer_unfold by assumption. cbv zeta.
  destruct (N.eqb_spec (le_decode (slice (last_bytes 44 pak) 17 21)) PAK_MAGIC)
    as [E|_]; [contradiction |].
  destruct (N.eqb_spec (le_decode (slice (last_bytes 28 pak) 0 4)) PAK_MAGIC)
    as [E|E]; split; intros H; try reflexivity; contradiction.
Qed.

(** Witness of C2: a file of 44 bytes that ends with the older footer. *)
Lemma parse_footer_older_layout_witness :
  (44 <= length older_pak)%nat
  /\ le_decode (slice (last_bytes 44 older_pak) 17 21) <> PAK_MAGIC
  /\ le_decode (slice (last_bytes 28 older_pak) 0 4) = PAK_MAGIC
  /\ call (parse_footer older_pak) init =
       (Ok true, mk 3 5 7 [] false ∅, older_footer_log).
Proof.
  assert (H1 : (44 <= length older_pak)%nat) by (vm_compute; lia).
  assert (H2 : le_decode (slice (last_bytes 44 older_pak) 17 21) <> PAK_MAGIC)
    by (vm_compute; discriminate).
  assert (H3 : le_decode (slice (last_bytes 28 older_pak) 0 4) = PAK_MAGIC)
    by reflexivity.
  split; [exact H1 | split; [exact H2 | split; [exact H3 |]]].
  exact (proj1 (parse_footer_older_layout older_pak init H1 H2) H3).
Defined.

(** ** Extraction *)

Section ExtractFileData.

Context {host : Host}.

Variable zlib_decompress : Z -> bytes -> option bytes.
Variable pak : bytes.

Lemma decompress_data_run data method w :
  decompress_data zlib_decompress data method w =
    (match decompressed zlib_decompress data method with
     | Some out => Ok out
     | None => Raise zlib_error
     end,
     World (w_self w) (w_pos w) (w_log w ++ codec_events method)).
Proof.
  unfold decompress_data, decompressed, codec_events, zlib_call, log, ret.
  destruct (method =? COMPRESS_ZLIB).
  - destruct (zlib_decompress MAX_WBITS data); reflexivity.
  - destruct (method =? COMPRESS_GZIP).
    + destruct (zlib_decompress (Z.lor MAX_WBITS 16) data); reflexivity.
    + rewrite app_nil_r. destruct w; reflexivity.
Qed.

Lemma not_compressed_iff e :
  UnrealPakEntry.is_compressed e = false <->
  UnrealPakEntry.compression_method e = COMPRESS_None
  \/ UnrealPakEntry.compressed_size e = UnrealPakEntry.uncompressed_size e.
Proof.
  unfold UnrealPakEntry.is_compressed, COMPRESS_None.
  destruct (N.eqb_spec (UnrealPakEntry.compression_method e) 0),
           (N.eqb_spec (UnrealPakEntry.compressed_size e)
                       (UnrealPakEntry.uncompressed_size e));
    cbn; intuition congruence.
Qed.

(** An entry that is neither encrypted nor compressed: one seek, one
    read, no decompression; [None] when the seek or the read is not
    served. *)
Lemma extract_not_compressed e self :
  UnrealPakEntry.encrypted e = false ->
  UnrealPakEntry.is_compressed e = false ->
  call (extract_file_data zlib_decompress pak e) self =
    if seekable pak (UnrealPakEntry.offset e) then
      if readable pak (Z.of_N (UnrealPakEntry.uncompressed_size e)) then
        (Ok (Some (read_at pak (UnrealPakEntry.offset e)
                     (UnrealPakEntry.uncompressed_size e))),
         self,
         [EvOpen; EvSeek (UnrealPakEntry.offset e);
          EvRead (Z.of_N (UnrealPakEntry.uncompressed_size e))])
      else
        (Ok None, self,
         [EvOpen; EvSeek (UnrealPakEntry.offset e);
          EvRead (Z.of_N (UnrealPakEntry.uncompressed_size e))])
    else (Ok None, self, [EvOpen; EvSeek (UnrealPakEntry.offset e)]).
Proof.
  intros Henc Hcomp. unfold call, extract_file_data.
  rewrite Henc, Hcomp.
  unfold try_except, bind, open_rb.
  destruct (seekable pak (UnrealPakEntry.offset e)) eqn:Hs.
  - rewrite f_seek_ok by exact Hs.
    destruct (readable pak (Z.of_N (UnrealPakEntry.uncompressed_size e))) eqn:Hr.
    + rewrite f_read_ok by (first [lia | exact Hr]).
      cbn. unfold read_at.
      replace (Z.to_nat (Z.of_N (UnrealPakEntry.uncompressed_size e)))
        with (N.to_nat (UnrealPakEntry.uncompressed_size e)) by lia.
      reflexivity.
    + match goal with
      | |- context [f_read pak ?n ?w] =>
          destruct (f_read_refused pak n w Hr) as [ex E]; rewrite E
      end.
      reflexivity.
  - match goal with
    | |- context [f_seek pak ?q ?w] =>
        destruct (f_seek_refused pak q w Hs) as [ex E]; rewrite E
    end.
    reflexivity.
Qed.

(** The same entry when its range lies inside the file. *)
Lemma extract_not_compressed_inside e self :
  UnrealPakEntry.encrypted e = false ->
  UnrealPakEntry.is_compressed e = false ->
  UnrealPakEntry.offset e + UnrealPakEntry.uncompressed_size e
  <= N.of_nat (length pak) ->
  call (extract_file_data zlib_decompress pak e) self =
    (Ok (Some (read_at pak (UnrealPakEntry.offset e)
                 (UnrealPakEntry.uncompressed_size e))),
     self,
     [EvOpen; EvSeek (UnrealPakEntry.offset e);
      EvRead (Z.of_N (UnrealPakEntry.uncompressed_size e))]).
Proof.
  intros Henc Hcomp Hin. rewrite extract_not_compressed by assumption.
  rewrite seekable_inside by lia. rewrite readable_inside by lia.
  reflexivity.
Qed.

(** An encrypted entry is refused before the file is opened. *)
Lemma extract_encrypted e self :
  UnrealPakEntry.encrypted e = true ->
  call (extract_file_data zlib_decompress pak e) self = (Ok None, self, []).
Proof.
  intros Henc. unfold call, extract_file_data. rewrite Henc. reflexivity.
Qed.

Lemma length_read_at_inside pos n :
  pos + n <= N.of_nat (length pak) ->
  length (read_at pak pos n) = N.to_nat n.
Proof.
  intros H. unfold read_at. rewrite length_take, length_drop. lia.
Qed.

Lemma read_at_beyond pos n :
  N.of_nat (length pak) < pos + n ->
  read_at pak pos n = drop (N.to_nat pos) pak
  /\ (0 < n -> N.of_nat (length (read_at pak pos n)) < n).
Proof.
  intros H. unfold read_at.
  rewrite take_ge by (rewrite length_drop; lia).
  split; [reflexivity | rewrite length_drop; lia].
Qed.





End ExtractFileData.

(** C6 (amended).  An unencrypted entry whose method is [None], or whose
    two sizes are equal, is extracted by one seek to its offset and one
    read of [uncompressed_size] bytes, whose result is returned as it
    is, with no call to zlib: exactly [uncompressed_size] bytes when the
    range lies inside the file; [None] when the seek or the read is not
    served.  An entry with method code 0x08 and equal sizes is not
    compressed. *)
Theorem extract_verbatim_when_not_compressed {host : Host} :
  (forall zlib_decompress (pak : bytes) (self : extractor) (e : UnrealPakEntry.t),
      UnrealPakEntry.encrypted e = false ->
      UnrealPakEntry.compression_method e = COMPRESS_None
      \/ UnrealPakEntry.compressed_size e = UnrealPakEntry.uncompressed_size e ->
      call (extract_file_data zlib_decompress pak e) self =
        (if seekable pak (UnrealPakEntry.offset e) then
           if readable pak (Z.of_N (UnrealPakEntry.uncompressed_size e)) then
             (Ok (Some (read_at pak (UnrealPakEntry.offset e)
                          (UnrealPakEntry.uncompressed_size e))),
              self,
              [EvOpen; EvSeek (UnrealPakEntry.offset e);
               EvRead (Z.of_N (UnrealPakEntry.uncompressed_size e))])
           else
             (Ok None, self,
              [EvOpen; EvSeek (UnrealPakEntry.offset e);
               EvRead (Z.of_N (UnrealPakEntry.uncompressed_size e))])
         else (Ok None, self, [EvOpen; EvSeek (UnrealPakEntry.offset e)]))
      /\ (UnrealPakEntry.offset e + UnrealPakEntry.uncompressed_size e
          <= N.of_nat (length pak) ->
          call (extract_file_data zlib_decompress pak e) self =
            (Ok (Some (read_at pak (UnrealPakEntry.offset e)
                         (UnrealPakEntry.uncompressed_size e))),
             self,
             [EvOpen; EvSeek (UnrealPakEntry.offset e);
              EvRead (Z.of_N (UnrealPakEntry.uncompressed_size e))])
          /\ N.of_nat (length (read_at pak (UnrealPakEntry.offset e)
                                 (UnrealPakEntry.uncompressed_size e)))
             = UnrealPakEntry.uncompressed_size e))
  /\ (forall e : UnrealPakEntry.t,
        UnrealPakEntry.compression_method e = 0x08 ->
        UnrealPakEntry.compressed_size e = UnrealPakEntry.uncompressed_size e ->
        UnrealPakEntry.is_compressed e = false).
Proof.
  split.
  - intros zlib pak self e Henc Hstored.
    assert (Hcomp : UnrealPakEntry.is_compressed e = false)
      by (apply not_compressed_iff; exact Hstored).
    split.
    + apply extract_not_compressed; assumption.
    + intros H. split.
      * apply extract_not_compressed_inside; assumption.
      * rewrite length_read_at_inside by exact H. lia.
  - intros e _ Hsize. apply not_compressed_iff. right. exact Hsize.
Qed.

(** Witness of C6 (amended): the entry with method code 0x08 and equal
    sizes. *)
Lemma extract_verbatim_when_not_compressed_witness :
  UnrealPakEntry.encrypted method8_entry = false
  /\ (UnrealPakEntry.compression_method method8_entry = COMPRESS_None
      \/ UnrealPakEntry.compressed_size method8_entry
         = UnrealPakEntry.uncompressed_size method8_entry)
  /\ call (extract_file_data toy_zlib ten_bytes method8_entry) init =
       (Ok (Some [x32; x33; x34; x35; x36]), init,
        [EvOpen; EvSeek 2; EvRead 5]).
Proof.
  assert (H1 : UnrealPakEntry.encrypted method8_entry = false) by reflexivity.
  assert (H2 : UnrealPakEntry.compression_method method8_entry = COMPRESS_None
               \/ UnrealPakEntry.compressed_size method8_entry
                  = UnrealPakEntry.uncompressed_size method8_entry)
    by (right; reflexivity).
  split; [exact H1 | split; [exact H2 |]].
  exact (proj1 (proj1 extract_verbatim_when_not_compressed
                  toy_zlib ten_bytes init method8_entry H1 H2)).
Defined.

(** Counterexample to C6 as stated: an entry with method code 0x08 and
    equal sizes whose range [4, 14) ends after the ten bytes of the
    file is extracted as the six bytes that exist, not as
    [uncompressed_size] bytes; and an entry stored without compression
    whose size is 2^63 is not extracted at all, the read raises. *)
Lemma extract_verbatim_counterexample :
  (UnrealPakEntry.encrypted overlong_method8_entry = false
   /\ UnrealPakEntry.compressed_size overlong_method8_entry
      = UnrealPakEntry.uncompressed_size overlong_method8_entry
   /\ UnrealPakEntry.uncompressed_size overlong_method8_entry = 10
   /\ call (extract_file_data toy_zlib ten_bytes overlong_method8_entry) init =
        (Ok (Some [x34; x35; x36; x37; x38; x39]), init,
         [EvOpen; EvSeek 4; EvRead 10]))
  /\ (UnrealPakEntry.encrypted huge_entry = false
      /\ UnrealPakEntry.compression_method huge_entry = COMPRESS_None
      /\ call (extract_file_data toy_zlib ten_bytes huge_entry) init =
           (Ok None, init, [EvOpen; EvSeek 0; EvRead 9223372036854775808])).
Proof.
  repeat split; reflexivity.
Qed.

(** C7 (amended).  For an entry that is neither encrypted nor
    compressed, extraction returns all the bytes of
    [offset, offset + uncompressed_size) when that range lies inside the
    file.  When it does not, extraction either returns as a success
    only the bytes from [offset] to the end of the file, fewer than
    [uncompressed_size], or, when the seek or the read is not served,
    returns [None]. *)
Theorem extract_uncompressed_range {host : Host} :
  forall zlib_decompress (pak : bytes) (self : extractor) (e : UnrealPakEntry.t),
    UnrealPakEntry.encrypted e = false ->
    UnrealPakEntry.is_compressed e = false ->
    (UnrealPakEntry.offset e + UnrealPakEntry.uncompressed_size e
     <= N.of_nat (length pak) ->
     call (extract_file_data zlib_decompress pak e) self =
       (Ok (Some (read_at pak (UnrealPakEntry.offset e)
                    (UnrealPakEntry.uncompressed_size e))),
        self,
        [EvOpen; EvSeek (UnrealPakEntry.offset e);
         EvRead (Z.of_N (UnrealPakEntry.uncompressed_size e))])
     /\ N.of_nat (length (read_at pak (UnrealPakEntry.offset e)
                            (UnrealPakEntry.uncompressed_size e)))
        = UnrealPakEntry.uncompressed_size e)
    /\ (N.of_nat (length pak)
        < UnrealPakEntry.offset e + UnrealPakEntry.uncompressed_size e ->
        (seekable pak (UnrealPakEntry.offset e) = true ->
         readable pak (Z.of_N (UnrealPakEntry.uncompressed_size e)) = true ->
         call (extract_file_data zlib_decompress pak e) self =
           (Ok (Some (drop (N.to_nat (UnrealPakEntry.offset e)) pak)),
            self,
            [EvOpen; EvSeek (UnrealPakEntry.offset e);
             EvRead (Z.of_N (UnrealPakEntry.uncompressed_size e))])
         /\ (0 < UnrealPakEntry.uncompressed_size e ->
             N.of_nat (length (drop (N.to_nat (UnrealPakEntry.offset e)) pak))
             < UnrealPakEntry.uncompressed_size e))
        /\ (seekable pak (UnrealPakEntry.offset e) = true ->
            readable pak (Z.of_N (UnrealPakEntry.uncompressed_size e)) = false ->
            call (extract_file_data zlib_decompress pak e) self =
              (Ok None, self,
               [EvOpen; EvSeek (UnrealPakEntry.offset e);
                EvRead (Z.of_N (UnrealPakEntry.uncompressed_size e))]))
        /\ (seekable pak (UnrealPakEntry.offset e) = false ->
            call (extract_file_data zlib_decompress pak e) self =
              (Ok None, self, [EvOpen; EvSeek (UnrealPakEntry.offset e)]))).
Proof.
  intros zlib pak self e Henc Hcomp. split.
  - intros H. split.
    + apply extract_not_compressed_inside; assumption.
    + rewrite length_read_at_inside by exact H. lia.
  - intros H.
    pose proof (extract_not_compressed zlib pak e self Henc Hcomp) as E.
    split; [| split].
    + intros Hs Hr. rewrite Hs, Hr in E.
      destruct (read_at_beyond pak _ _ H) as [Ed Hl].
      rewrite Ed in E. split; [exact E |].
      rewrite Ed in Hl. exact Hl.
    + intros Hs Hr. rewrite Hs, Hr in E. exact E.
    + intros Hs. rewrite Hs in E. exact E.
Qed.

(** Witness of C7 (amended): five bytes at offset 2 of a file of ten. *)
Lemma extract_uncompressed_range_witness :
  UnrealPakEntry.encrypted stored_entry = false
  /\ UnrealPakEntry.is_compressed stored_entry = false
  /\ UnrealPakEntry.offset stored_entry + UnrealPakEntry.uncompressed_size stored_entry
     <= N.of_nat (length ten_bytes)
  /\ call (extract_file_data toy_zlib ten_bytes stored_entry) init =
       (Ok (Some [x32; x33; x34; x35; x36]), init, [EvOpen; EvSeek 2; EvRead 5]).
Proof.
  assert (H1 : UnrealPakEntry.encrypted stored_entry = false) by reflexivity.
  assert (H2 : UnrealPakEntry.is_compressed stored_entry = false) by reflexivity.
  assert (H3 : UnrealPakEntry.offset stored_entry
               + UnrealPakEntry.uncompressed_size stored_entry
               <= N.of_nat (length ten_bytes)) by (vm_compute; discriminate).
  split; [exact H1 | split; [exact H2 | split; [exact H3 |]]].
  exact (proj1 (proj1 (extract_uncompressed_range toy_zlib ten_bytes init
                         stored_entry H1 H2) H3)).
Defined.

(** Counterexample to C7 as stated: the range [4, 14) of an entry that
    is neither encrypted nor compressed ends after the ten bytes of the
    file; extraction returns the six bytes that exist as a success,
    where the entry has ten. *)
Lemma extract_truncated_counterexample :
  UnrealPakEntry.encrypted overlong_entry = false
  /\ UnrealPakEntry.is_compressed overlong_entry = false
  /\ UnrealPakEntry.uncompressed_size overlong_entry = 10
  /\ call (extract_file_data toy_zlib ten_bytes overlong_entry) init =
       (Ok (Some [x34; x35; x36; x37; x38; x39]), init,
        [EvOpen; EvSeek 4; EvRead 10]).
Proof.
  repeat split; reflexivity.
Qed.




(** ** What the methods do to the object *)

Section Preservation.

Context {host : Host}.

Variable P : extractor -> Prop.

Lemma preserves_ret {A} (a : A) : preserves P (ret a).
Proof. intros w H. exact H. Qed.

Lemma preserves_lift {A} (r : res A) : preserves P (lift r).
Proof. intros w H. exact H. Qed.

Lemma preserves_bind {A B} (m : M A) (k : A -> M B) :
  preserves P m -> (forall a, preserves P (k a)) -> preserves P (bind m k).
Proof.
  intros Hm Hk w H. unfold bind.
  specialize (Hm w H). destruct (m w) as [[a|e] w']; cbn in *.
  - apply Hk. exact Hm.
  - exact Hm.
Qed.

Lemma preserves_try {A} (m : M A) (h : exn -> M A) :
  preserves P m -> (forall e, preserves P (h e)) ->
  preserves P (try_except m h).
Proof.
  intros Hm Hh w H. unfold try_except.
  specialize (Hm w H). destruct (m w) as [[a|e] w']; cbn in *.
  - exact Hm.
  - apply Hh. exact Hm.
Qed.

Lemma preserves_get_self : preserves P get_self.
Proof. intros w H. exact H. Qed.

Lemma preserves_set_self f :
  (forall s, P s -> P (f s)) -> preserves P (set_self f).
Proof. intros Hf w H. cbn. apply Hf. exact H. Qed.

Lemma preserves_open_rb : preserves P open_rb.
Proof. intros w H. exact H. Qed.

Lemma preserves_f_seek pak pos : preserves P (f_seek pak pos).
Proof.
  intros w H. unfold f_seek.
  destruct (seekable pak pos); [exact H |].
  destruct (_ <=? _); exact H.
Qed.

Lemma preserves_f_tell : preserves P f_tell.
Proof. intros w H. exact H. Qed.

Lemma preserves_f_seek_end pak delta : preserves P (f_seek_end pak delta).
Proof.
  intros w H. unfold f_seek_end.
  destruct (_ <? _)%Z; exact H.
Qed.

Lemma preserves_f_read pak n : preserves P (f_read pak n).
Proof.
  intros w H. unfold f_read.
  destruct (n <? -1)%Z; [exact H |].
  destruct (readable pak n); cbn [negb]; [exact H |].
  destruct (_ <? _)%Z; exact H.
Qed.

Lemma preserves_read_Q pak : preserves P (read_Q pak).
Proof.
  apply preserves_bind; [apply preserves_f_read | intros; apply preserves_lift].
Qed.

Lemma preserves_read_I pak : preserves P (read_I pak).
Proof.
  apply preserves_bind; [apply preserves_f_read | intros; apply preserves_lift].
Qed.

Lemma preserves_read_string pak : preserves P (read_string pak).
Proof.
  unfold read_string.
  apply preserves_bind; [apply preserves_f_read | intros b].
  apply preserves_bind; [apply preserves_lift | intros n].
  destruct (n =? 0)%Z; [apply preserves_ret |].
  destruct (n <? 0)%Z;
    (apply preserves_bind; [apply preserves_f_read | intros; apply preserves_ret]).
Qed.

Lemma preserves_read_blocks pak n : forall acc, preserves P (read_blocks pak n acc).
Proof.
  induction n as [|n IH]; intros acc; cbn [read_blocks].
  - apply preserves_ret.
  - apply preserves_bind; [apply preserves_read_Q | intros bs].
    apply preserves_bind; [apply preserves_read_Q | intros be].
    apply IH.
Qed.

End Preservation.

Section Index.

Context {host : Host}.

Variable pak : bytes.

(** Every entry that [parse_entry] stores carries the flag derived
    from its compression method. *)
Lemma parse_entry_derived : preserves entries_derived (parse_entry pak).
Proof.
  unfold parse_entry.
  apply preserves_bind; [apply preserves_read_string | intros filename].
  destruct (bool_decide (filename = [])); [apply preserves_ret |].
  apply preserves_bind; [apply preserves_get_self | intros self].
  cbv zeta.
  apply preserves_bind; [apply preserves_read_Q | intros offset].
  apply preserves_bind; [apply preserves_read_Q | intros csize].
  apply preserves_bind; [apply preserves_read_Q | intros usize].
  apply preserves_bind; [apply preserves_read_I | intros method].
  apply preserves_bind;
    [destruct (8 <=? pak_version self);
     [apply preserves_read_Q | apply preserves_ret] | intros timestamp].
  apply preserves_bind; [apply preserves_f_read | intros file_hash].
  apply preserves_bind.
  { destruct (negb (method =? COMPRESS_None)); [| apply preserves_ret].
    apply preserves_bind; [apply preserves_read_I | intros block_count].
    apply preserves_read_blocks. }
  intros blocks.
  apply preserves_set_self. intros s Hs.
  unfold entries_derived in *. cbn [entries].
  apply map_Forall_insert_2; [reflexivity | exact Hs].
Qed.

Lemma parse_entries_derived n : preserves entries_derived (parse_entries pak n).
Proof.
  induction n as [|n IH]; cbn [parse_entries].
  - apply preserves_ret.
  - apply preserves_bind; [| intros; exact IH].
    apply preserves_try; [apply parse_entry_derived | intros; apply preserves_ret].
Qed.

Lemma parse_index_derived : preserves entries_derived (parse_index pak).
Proof.
  unfold parse_index.
  apply preserves_bind; [apply preserves_get_self | intros self].
  destruct (encrypted self); [apply preserves_ret |].
  apply preserves_try; [| intros; apply preserves_ret].
  apply preserves_bind; [apply preserves_open_rb | intros _].
  apply preserves_bind; [apply preserves_f_seek | intros _].
  apply preserves_bind; [apply preserves_read_string | intros mp].
  apply preserves_bind; [apply preserves_set_self; intros s Hs; exact Hs | intros _].
  apply preserves_bind; [apply preserves_read_I | intros entry_count].
  destruct (1000000 <? entry_count); [apply preserves_ret |].
  apply preserves_bind; [apply parse_entries_derived | intros; apply preserves_ret].
Qed.

(** [parse_index] on an object whose encrypted flag is set: nothing is
    opened, sought or read, and the object stays as it is. *)
Lemma parse_index_encrypted self :
  encrypted self = true ->
  call (parse_index pak) self = (Ok false, self, []).
Proof.
  intros H. unfold call, parse_index, bind, get_self. cbn.
  rewrite H. reflexivity.
Qed.

(** A file shorter than 44 bytes. *)
Lemma parse_footer_short self :
  (length pak < 44)%nat ->
  call (parse_footer pak) self = (Ok false, self, [EvOpen; EvSeekEnd 0]).
Proof.
  intros H. unfold call, parse_footer.
  unfold bind at 1. cbn [open_rb].
  unfold bind at 1. rewrite f_seek_end_ok by lia.
  unfold bind at 1. cbn [f_tell set_pos log w_pos w_self w_log].
  destruct (N.ltb_spec (Z.to_N (Z.of_nat (length pak) + 0)) 44); [| lia].
  reflexivity.
Qed.

(** [parse_footer] never raises and leaves the entry mapping alone. *)
Lemma parse_footer_entries self :
  exists ok self' l,
    call (parse_footer pak) self = (Ok ok, self', l)
    /\ entries self' = entries self.
Proof.
  destruct (Nat.lt_ge_cases (length pak) 44) as [Hs|Hs].
  - rewrite parse_footer_short by exact Hs. eauto 10.
  - rewrite parse_footer_unfold by exact Hs. cbv zeta.
    destruct (_ =? PAK_MAGIC); [| destruct (_ =? PAK_MAGIC)];
      do 3 eexists; (split; reflexivity).
Qed.

Lemma call_inv {A} (m : M A) self r self' l :
  call m self = (r, self', l) ->
  exists p, m (World self 0 []) = (r, World self' p l).
Proof.
  unfold call. destruct (m (World self 0 [])) as [r0 [s0 p0 l0]].
  cbn. intros [= -> -> ->]. eauto.
Qed.

Lemma call_self {A} (m : M A) self :
  (call m self).1.2 = w_self (m (World self 0 [])).2.
Proof.
  unfold call. destruct (m (World self 0 [])) as [r0 w0]. reflexivity.
Qed.

(** [parse] after a footer that sets the encrypted flag: [False], and
    nothing happens to the file after the footer has been read. *)
Lemma parse_encrypted_index self ok self' l :
  call (parse_footer pak) self = (Ok ok, self', l) ->
  encrypted self' = true ->
  call (parse pak) self = (Ok false, self', l).
Proof.
  intros Hf Henc. apply call_inv in Hf as [p Hf].
  unfold call, parse. unfold bind at 1. rewrite Hf.
  destruct ok; cbn [negb]; [| reflexivity].
  unfold parse_index, bind, get_self. cbn.
  rewrite Henc. reflexivity.
Qed.

Lemma parse_footer_derived : preserves entries_derived (parse_footer pak).
Proof.
  assert (Hset : forall f, (forall s, entries (f s) = entries s) ->
                           preserves entries_derived (set_self f)).
  { intros f Hf. apply preserves_set_self. intros s Hs.
    unfold entries_derived. rewrite Hf. exact Hs. }
  assert (Hval : forall n, preserves entries_derived (validate_values n)).
  { intros n. apply preserves_bind; [apply preserves_get_self | intros s].
    destruct (_ || _); apply preserves_ret. }
  unfold parse_footer.
  apply preserves_bind; [apply preserves_open_rb | intros _].
  apply preserves_bind; [apply preserves_f_seek_end | intros _].
  apply preserves_bind; [apply preserves_f_tell | intros file_size].
  destruct (file_size <? 44); [apply preserves_ret |].
  apply preserves_bind; [apply preserves_f_seek_end | intros _].
  apply preserves_bind; [apply preserves_f_read | intros footer_data].
  apply preserves_try; [| intros; apply preserves_ret].
  apply preserves_bind; [apply preserves_lift | intros flag].
  apply preserves_bind; [apply preserves_lift | intros magic].
  destruct (negb (magic =? PAK_MAGIC)).
  - apply preserves_bind; [apply preserves_f_seek_end | intros _].
    apply preserves_bind; [apply preserves_f_read | intros footer_old].
    apply preserves_bind; [apply preserves_lift | intros magic_old].
    destruct (negb (magic_old =? PAK_MAGIC)); [apply preserves_ret |].
    repeat first
      [ apply Hval
      | apply preserves_bind;
        [first [apply preserves_lift | apply Hset; intros; reflexivity]
        | intros ] ].
  - repeat first
      [ apply Hval
      | apply preserves_bind;
        [first [apply preserves_lift | apply Hset; intros; reflexivity]
        | intros ] ].
Qed.

(** The entries that [parse] leaves in a fresh object carry the flag
    derived from their compression method. *)
Lemma parse_derived : entries_derived (call (parse pak) init).1.2.
Proof.
  rewrite call_self.
  assert (H : preserves entries_derived (parse pak)).
  { unfold parse.
    apply preserves_bind; [apply parse_footer_derived | intros ok].
    destruct (negb ok); [apply preserves_ret |].
    apply preserves_bind; [apply parse_index_derived | intros ok'].
    destruct (negb ok'); apply preserves_ret. }
  apply H. cbn. unfold entries_derived. cbn. apply map_Forall_empty.
Qed.

End Index.

(** ** Extraction does not depend on the object *)

Section Frame.

Context {host : Host}.

Variable zlib_decompress : Z -> bytes -> option bytes.
Variable pak : bytes.

Lemma frame_ret {A} (a : A) : self_frame (ret a).
Proof. intros p l. exists (Ok a), p, l. reflexivity. Qed.

Lemma frame_bind {A B} (m : M A) (k : A -> M B) :
  self_frame m -> (forall a, self_frame (k a)) -> self_frame (bind m k).
Proof.
  intros Hm Hk p l. destruct (Hm p l) as (r & p1 & l1 & E1).
  destruct r as [a|e].
  - destruct (Hk a p1 l1) as (r2 & p2 & l2 & E2).
    exists r2, p2, l2. intros s. unfold bind. rewrite E1. apply E2.
  - exists (Raise e), p1, l1. intros s. unfold bind. rewrite E1. reflexivity.
Qed.

Lemma frame_try {A} (m : M A) (h : exn -> M A) :
  self_frame m -> (forall e, self_frame (h e)) -> self_frame (try_except m h).
Proof.
  intros Hm Hh p l. destruct (Hm p l) as (r & p1 & l1 & E1).
  destruct r as [a|e].
  - exists (Ok a), p1, l1. intros s. unfold try_except. rewrite E1. reflexivity.
  - destruct (Hh e p1 l1) as (r2 & p2 & l2 & E2).
    exists r2, p2, l2. intros s. unfold try_except. rewrite E1. apply E2.
Qed.

Lemma frame_open_rb : self_frame open_rb.
Proof.
  intros p l. do 3 eexists. intros s.
  unfold open_rb, set_pos, log. cbn. reflexivity.
Qed.

Lemma frame_f_seek pos : self_frame (f_seek pak pos).
Proof.
  intros p l. unfold f_seek.
  destruct (seekable pak pos); [| destruct (_ <=? _)];
    do 3 eexists; intros s; unfold set_pos, log; cbn; reflexivity.
Qed.

Lemma frame_f_read n : self_frame (f_read pak n).
Proof.
  intros p l. unfold f_read.
  destruct (n <? -1)%Z;
    [| destruct (readable pak n); cbn [negb]; [| destruct (_ <? _)%Z]];
    do 3 eexists; intros s; unfold set_pos, log; cbn; reflexivity.
Qed.

Lemma frame_decompress_data data method :
  self_frame (decompress_data zlib_decompress data method).
Proof.
  intros p l. do 3 eexists. intros s.
  rewrite decompress_data_run. cbn. reflexivity.
Qed.

Lemma frame_extract_blocks e blocks :
  forall out, self_frame (extract_blocks zlib_decompress pak e blocks out).
Proof.
  induction blocks as [|[bs be] rest IH]; intros out; cbn [extract_blocks].
  - apply frame_ret.
  - apply frame_bind; [apply frame_f_seek | intros _].
    apply frame_bind; [apply frame_f_read | intros block].
    apply frame_bind; [| intros piece; apply IH].
    apply frame_try; [apply frame_decompress_data | intros; apply frame_ret].
Qed.

Lemma frame_extract_file_data e :
  self_frame (extract_file_data zlib_decompress pak e).
Proof.
  unfold extract_file_data.
  destruct (UnrealPakEntry.encrypted e); [apply frame_ret |].
  apply frame_try; [| intros; apply frame_ret].
  apply frame_bind; [apply frame_open_rb | intros _].
  apply frame_bind; [apply frame_f_seek | intros _].
  destruct (UnrealPakEntry.is_compressed e).
  - destruct (negb _).
    + apply frame_bind; [apply frame_extract_blocks | intros; apply frame_ret].
    + apply frame_bind; [apply frame_f_read | intros data].
      apply frame_bind; [apply frame_decompress_data | intros; apply frame_ret].
  - apply frame_bind; [apply frame_f_read | intros; apply frame_ret].
Qed.

Lemma frame_outcome {A} (m : M A) s s' :
  self_frame m -> outcome (call m s) = outcome (call m s').
Proof.
  intros H. destruct (H 0 []) as (r & p & l & E).
  unfold outcome, call. rewrite (E s), (E s'). reflexivity.
Qed.

End Frame.

(** C3 (the code departs from the claim).  The flag that [parse_index]
    tests is bit 0 of the method field, not its top bit, and it is the
    bit of the Zlib codec value: the method 0x01 of an unencrypted Zlib
    entry gives [encrypted = True], while [None], [Gzip] and [Custom] give
    [False]; the Zlib entry "z" of the sample archive is stored as
    encrypted and its extraction returns [None]. *)
Theorem encrypted_flag_is_the_zlib_bit {host : Host} :
  ENCRYPTED_FLAG = COMPRESS_ZLIB
  /\ N.testbit ENCRYPTED_FLAG 31 = false
  /\ N.testbit ENCRYPTED_FLAG 0 = true
  /\ entry_encrypted COMPRESS_ZLIB = true
  /\ entry_encrypted COMPRESS_None = false
  /\ entry_encrypted COMPRESS_GZIP = false
  /\ entry_encrypted COMPRESS_Custom = false
  /\ entries (call (parse sample_pak) init).1.2 !! [122] = Some sample_entry_z
  /\ call (extract_file_data toy_zlib sample_pak sample_entry_z) init
     = (Ok None, init, []).
Proof.
  repeat split; vm_compute; reflexivity.
Qed.

(** C4.  An entry that [parse] stored and whose method field is 0x01
    has its encrypted flag set; [extract_file_data] returns [None] for it
    without opening, seeking or reading the file and without calling
    zlib. *)
Theorem parsed_zlib_entry_is_refused {host : Host} :
  forall (pak : bytes) (name : str) (e : UnrealPakEntry.t),
    entries (call (parse pak) init).1.2 !! name = Some e ->
    UnrealPakEntry.compression_method e = 0x01 ->
    UnrealPakEntry.encrypted e = true
    /\ forall zlib_decompress (pak' : bytes) (self : extractor),
         call (extract_file_data zlib_decompress pak' e) self
         = (Ok None, self, []).
Proof.
  intros pak name e Hin Hm.
  assert (Henc : UnrealPakEntry.encrypted e = true).
  { pose proof (parse_derived pak) as Hd.
    specialize (Hd name e Hin). unfold flag_derived in Hd.
    rewrite Hd, Hm. reflexivity. }
  split; [exact Henc |].
  intros zlib pak' self. apply extract_encrypted. exact Henc.
Qed.

(** Witness of C4: the entry "z" of the sample archive. *)
Lemma parsed_zlib_entry_is_refused_witness :
  entries (call (parse sample_pak) init).1.2 !! [122] = Some sample_entry_z
  /\ UnrealPakEntry.compression_method sample_entry_z = 0x01
  /\ UnrealPakEntry.encrypted sample_entry_z = true
  /\ forall zlib_decompress (pak' : bytes) (self : extractor),
       call (extract_file_data zlib_decompress pak' sample_entry_z) self
       = (Ok None, self, []).
Proof.
  assert (H1 : entries (call (parse sample_pak) init).1.2 !! [122]
               = Some sample_entry_z) by (vm_compute; reflexivity).
  assert (H2 : UnrealPakEntry.compression_method sample_entry_z = 0x01)
    by reflexivity.
  split; [exact H1 | split; [exact H2 |]].
  exact (parsed_zlib_entry_is_refused sample_pak [122] sample_entry_z H1 H2).
Defined.

(** C5.  With the encrypted flag of the footer set, [parse_index]
    returns [False] without opening, seeking or reading the file and
    leaves the object as it is, so that [parse] on a fresh object ends
    with an empty entry mapping.  An entry whose own flag is set is
    refused by [extract_file_data]; what [extract_file_data] does for
    another entry does not depend on that entry being in the mapping. *)
Theorem encrypted_index_and_encrypted_payload {host : Host} :
  (forall (pak : bytes) (self : extractor),
      encrypted self = true ->
      call (parse_index pak) self = (Ok false, self, []))
  /\ (forall (pak : bytes) ok self' l,
        call (parse_footer pak) init = (Ok ok, self', l) ->
        encrypted self' = true ->
        call (parse pak) init = (Ok false, self', l) /\ entries self' = ∅)
  /\ (forall zlib_decompress (pak : bytes) (self : extractor) e,
        UnrealPakEntry.encrypted e = true ->
        call (extract_file_data zlib_decompress pak e) self = (Ok None, self, []))
  /\ (forall zlib_decompress (pak : bytes) (self : extractor) k e e',
        UnrealPakEntry.encrypted e = true ->
        outcome (call (extract_file_data zlib_decompress pak e')
                   (with_entries self (<[k := e]> (entries self))))
        = outcome (call (extract_file_data zlib_decompress pak e') self)).
Proof.
  split; [| split; [| split]].
  - intros pak self H. apply parse_index_encrypted. exact H.
  - intros pak ok self' l Hf Henc. split.
    + eapply parse_encrypted_index; eassumption.
    + destruct (parse_footer_entries pak init) as (ok' & s' & l' & E & He).
      rewrite E in Hf. injection Hf as _ <- _. exact He.
  - intros zlib pak self e Henc. apply extract_encrypted. exact Henc.
  - intros zlib pak self k e e' _.
    apply frame_outcome, frame_extract_file_data.
Qed.

(** Witness of C5: the sample archive with the encrypted-index flag set
    in its footer, and its Zlib entry next to its stored entry. *)
Lemma encrypted_index_and_encrypted_payload_witness :
  call (parse_footer sample_pak_encrypted_index) init
  = (Ok true, mk 8 8 159 [] true ∅, newer_footer_log)
  /\ encrypted (mk 8 8 159 [] true ∅) = true
  /\ UnrealPakEntry.encrypted sample_entry_z = true
  /\ (call (parse sample_pak_encrypted_index) init
      = (Ok false, mk 8 8 159 [] true ∅, newer_footer_log)
      /\ entries (mk 8 8 159 [] true ∅) = ∅)
  /\ call (extract_file_data toy_zlib sample_pak sample_entry_z)
        (with_entries init {[ [97] := sample_entry_a ]})
     = (Ok None, with_entries init {[ [97] := sample_entry_a ]}, [])
  /\ outcome (call (extract_file_data toy_zlib sample_pak sample_entry_a)
                (with_entries (with_entries init {[ [97] := sample_entry_a ]})
                   (<[ [122] := sample_entry_z ]>
                      (entries (with_entries init {[ [97] := sample_entry_a ]})))))
     = outcome (call (extract_file_data toy_zlib sample_pak sample_entry_a)
                  (with_entries init {[ [97] := sample_entry_a ]})).
Proof.
  assert (H1 : call (parse_footer sample_pak_encrypted_index) init
               = (Ok true, mk 8 8 159 [] true ∅, newer_footer_log))
    by (vm_compute; reflexivity).
  assert (H2 : encrypted (mk 8 8 159 [] true ∅) = true) by reflexivity.
  assert (H3 : UnrealPakEntry.encrypted sample_entry_z = true) by reflexivity.
  split; [exact H1 | split; [exact H2 | split; [exact H3 |]]].
  split; [| split].
  - exact (proj1 (proj2 encrypted_index_and_encrypted_payload)
             sample_pak_encrypted_index true _ _ H1 H2).
  - exact (proj1 (proj2 (proj2 encrypted_index_and_encrypted_payload))
             toy_zlib sample_pak (with_entries init {[ [97] := sample_entry_a ]})
             sample_entry_z H3).
  - exact (proj2 (proj2 (proj2 encrypted_index_and_encrypted_payload))
             toy_zlib sample_pak (with_entries init {[ [97] := sample_entry_a ]})
             [122] sample_entry_z sample_entry_a H3).
Defined.

(** ** Strings *)

Section Strings.

Lemma rstrip_decompose c (s : str) :
  exists k, s = rstrip c s ++ repeat c k.
Proof.
  induction s as [|d s [k IH]]; [exists 0%nat; reflexivity |].
  cbn [rstrip]. destruct (rstrip c s) as [|t ts] eqn:E.
  - destruct (N.eqb_spec d c) as [->|Hne].
    + exists (S k). cbn in *. congruence.
    + exists k. cbn in *. congruence.
  - exists k. cbn in *. congruence.
Qed.

Lemma rstrip_last c (s : str) : last (rstrip c s) <> Some c.
Proof.
  induction s as [|d s IH]; [discriminate |].
  cbn [rstrip]. destruct (rstrip c s) as [|t ts] eqn:E.
  - destruct (N.eqb_spec d c) as [->|Hne]; cbn; congruence.
  - exact IH.
Qed.

Lemma replace_no_backslash (s : str) :
  Forall (fun c => c <> BACKSLASH) (replace BACKSLASH SLASH s).
Proof.
  induction s as [|c s IH]; constructor; [| exact IH].
  destruct (N.eqb_spec c BACKSLASH); [discriminate | assumption].
Qed.

Lemma replace_id (s : str) :
  Forall (fun c => c <> BACKSLASH) s -> replace BACKSLASH SLASH s = s.
Proof.
  induction 1 as [|c s Hc _ IH]; [reflexivity |].
  cbn. destruct (N.eqb_spec c BACKSLASH); [contradiction | f_equal; exact IH].
Qed.

Lemma lstrip_Forall (P : N -> Prop) c (s : str) :
  Forall P s -> Forall P (lstrip c s).
Proof.
  induction 1 as [|d s Hd Hs IH]; [constructor |].
  cbn. destruct (d =? c); [exact IH | constructor; assumption].
Qed.

Lemma lstrip_idempotent c (s : str) : lstrip c (lstrip c s) = lstrip c s.
Proof.
  induction s as [|d s IH]; [reflexivity |].
  cbn. destruct (d =? c) eqn:E; [exact IH |].
  cbn. rewrite E. reflexivity.
Qed.

Lemma length_lstrip c (s : str) : (length (lstrip c s) <= length s)%nat.
Proof.
  induction s as [|d s IH]; [reflexivity |].
  cbn. destruct (d =? c); cbn; lia.
Qed.

Lemma startswith_length (s p : str) :
  startswith s p = true -> (length p <= length s)%nat.
Proof.
  revert s. induction p as [|c p IH]; intros s H; [cbn; lia |].
  destruct s as [|d s]; [discriminate |].
  cbn in H. apply andb_true_iff in H as [_ H]. apply IH in H. cbn. lia.
Qed.

Lemma startswith_app (p r : str) : startswith (p ++ r) p = true.
Proof.
  induction p as [|c p IH]; [destruct r; reflexivity |].
  cbn. rewrite N.eqb_refl. exact IH.
Qed.

Lemma normalize_path_no_backslash mp p :
  Forall (fun c => c <> BACKSLASH) (normalize_path mp p).
Proof.
  unfold normalize_path. apply lstrip_Forall, replace_no_backslash.
Qed.

End Strings.

(** C8 (amended).  After a length prefix [n > 0], [read_string] reads
    [n] bytes and decodes them one byte per character; after [n < 0] it
    reads [2 * (-n)] bytes and decodes them as little-endian two-byte
    code units; in both cases every trailing null is removed from the
    decoded text, not only one. *)
Theorem read_string_decodes {host : Host} :
  (forall (pak : bytes) (w : world) (n : Z),
      unpack_i (read_at pak (w_pos w) 4) = Ok n ->
      (0 < n)%Z ->
      exists pos',
        read_string pak w =
          (Ok (rstrip NUL (decode_ascii (read_at pak (w_pos w + 4) (Z.to_N n)))),
           World (w_self w) pos' (w_log w ++ [EvRead 4; EvRead n])))
  /\ (forall (pak : bytes) (w : world) (n : Z),
        unpack_i (read_at pak (w_pos w) 4) = Ok n ->
        (n < 0)%Z ->
        exists pos',
          read_string pak w =
            (Ok (rstrip NUL
                   (decode_utf_16_le
                      (read_at pak (w_pos w + 4) (Z.to_N (2 * - n))))),
             World (w_self w) pos' (w_log w ++ [EvRead 4; EvRead (- n * 2)])))
  /\ (forall s : str,
        (exists k, s = rstrip NUL s ++ repeat NUL k)
        /\ last (rstrip NUL s) <> Some NUL).
Proof.
  assert (Hhdr : forall (pak : bytes) w n,
             unpack_i (read_at pak (w_pos w) 4) = Ok n ->
             length (read_at pak (w_pos w) 4) = 4%nat).
  { intros pak w n H. unfold unpack_i, unpack_le in H.
    destruct (Nat.eqb_spec (length (read_at pak (w_pos w) 4)) 4);
      [assumption | discriminate]. }
  split; [| split].
  - intros pak w n Hn Hpos. pose proof (Hhdr _ _ _ Hn) as Hlen.
    pose proof (unpack_i_bound _ _ Hn) as Hrange.
    unfold read_string. unfold bind at 1. rewrite f_read_small by lia.
    cbv zeta. change (Z.to_nat 4) with (N.to_nat 4).
    fold (read_at pak (w_pos w) 4). rewrite Hlen.
    unfold bind at 1. unfold lift at 1. rewrite Hn.
    destruct (Z.eqb_spec n 0); [lia |].
    destruct (Z.ltb_spec n 0); [lia |].
    unfold bind. rewrite f_read_small by lia.
    cbv zeta. cbn [set_pos log w_pos w_self w_log ret].
    replace (Z.to_nat n) with (N.to_nat (Z.to_N n)) by lia.
    change (N.of_nat 4) with 4.
    fold (read_at pak (w_pos w + 4) (Z.to_N n)).
    eexists. unfold ret, set_pos, log. cbn [w_self w_pos w_log].
    rewrite <- app_assoc. reflexivity.
  - intros pak w n Hn Hneg. pose proof (Hhdr _ _ _ Hn) as Hlen.
    pose proof (unpack_i_bound _ _ Hn) as Hrange.
    unfold read_string. unfold bind at 1. rewrite f_read_small by lia.
    cbv zeta. change (Z.to_nat 4) with (N.to_nat 4).
    fold (read_at pak (w_pos w) 4). rewrite Hlen.
    unfold bind at 1. unfold lift at 1. rewrite Hn.
    destruct (Z.eqb_spec n 0); [lia |].
    destruct (Z.ltb_spec n 0); [| lia].
    unfold bind. rewrite f_read_small by lia.
    cbv zeta. cbn [set_pos log w_pos w_self w_log ret].
    replace (Z.to_nat (- n * 2)) with (N.to_nat (Z.to_N (2 * - n))) by lia.
    change (N.of_nat 4) with 4.
    fold (read_at pak (w_pos w + 4) (Z.to_N (2 * - n))).
    eexists. unfold ret, set_pos, log. cbn [w_self w_pos w_log].
    rewrite <- app_assoc. reflexivity.
  - intros s. split; [apply rstrip_decompose | apply rstrip_last].
Qed.

(** Witness of C8 (amended): the narrow string "abc" with its
    terminator, at the start of a file. *)
Lemma read_string_decodes_witness :
  unpack_i (read_at narrow_abc (w_pos (World init 0 [])) 4) = Ok 4%Z
  /\ (0 < 4)%Z
  /\ exists pos',
       read_string narrow_abc (World init 0 []) =
         (Ok (rstrip NUL
                (decode_ascii
                   (read_at narrow_abc (w_pos (World init 0 []) + 4) (Z.to_N 4)))),
          World (w_self (World init 0 [])) pos'
                (w_log (World init 0 []) ++ [EvRead 4; EvRead 4])).
Proof.
  assert (H1 : unpack_i (read_at narrow_abc (w_pos (World init 0 [])) 4)
               = Ok 4%Z) by reflexivity.
  assert (H2 : (0 < 4)%Z) by lia.
  split; [exact H1 | split; [exact H2 |]].
  exact (proj1 read_string_decodes narrow_abc (World init 0 []) 4%Z H1 H2).
Defined.

(** Counterexample to C8 as stated: the decoded text "a\0\0" ends in
    two nulls; the claim keeps one of them, [read_string] returns "a",
    for the narrow and for the wide encoding. *)
Lemma read_string_strips_every_null_counterexample :
  call (read_string narrow_two_nulls) init = (Ok [97], init, [EvRead 4; EvRead 3])
  /\ strip_one_trailing_null (decode_ascii [x61; x00; x00]) = [97; 0]
  /\ call (read_string wide_two_nulls) init = (Ok [97], init, [EvRead 4; EvRead 6])
  /\ strip_one_trailing_null
       (decode_utf_16_le [x61; x00; x00; x00; x00; x00]) = [97; 0]
  /\ ([97] : str) <> [97; 0].
Proof.
  repeat split; try reflexivity. discriminate.
Qed.

(** C9 (amended).  Normalizing a normalized path gives it back exactly
    when the mount point is empty or the normalized path does not itself
    start with the mount point; from a path that starts with the mount
    point its first instance alone is removed; no backslash is left. *)
Theorem normalize_path_idempotent_unless_prefix :
  (forall mp p : str,
      normalize_path mp (normalize_path mp p) = normalize_path mp p
      <-> mp = [] \/ startswith (normalize_path mp p) mp = false)
  /\ (forall mp r : str,
        mp <> [] ->
        normalize_path mp (mp ++ r) = lstrip SLASH (replace BACKSLASH SLASH r))
  /\ (forall mp p : str, Forall (fun c => c <> BACKSLASH) (normalize_path mp p)).
Proof.
  split; [| split].
  - intros mp p. set (q := normalize_path mp p).
    assert (Hq : lstrip SLASH (replace BACKSLASH SLASH q) = q).
    { rewrite replace_id by apply normalize_path_no_backslash.
      unfold q, normalize_path. apply lstrip_idempotent. }
    unfold normalize_path at 1.
    destruct (decide (mp = [])) as [->|Hmp].
    + cbn [negb andb]. rewrite bool_decide_eq_true_2 by reflexivity.
      cbn [negb andb]. split; [auto | intros _; exact Hq].
    + rewrite bool_decide_eq_false_2 by exact Hmp. cbn [negb andb].
      destruct (startswith q mp) eqn:Hs.
      * split; [| intros [?|?]; [contradiction | discriminate]].
        intros Heq. exfalso.
        apply startswith_length in Hs.
        assert (Hl : (length (lstrip SLASH
                                (replace BACKSLASH SLASH (drop (length mp) q)))
                      <= length q - length mp)%nat).
        { etransitivity; [apply length_lstrip |].
          unfold replace. rewrite length_map, length_drop. reflexivity. }
        rewrite Heq in Hl. destruct mp; [contradiction | cbn in *; lia].
      * split; [auto | intros _; exact Hq].
  - intros mp r Hmp. unfold normalize_path.
    rewrite bool_decide_eq_false_2 by exact Hmp.
    rewrite startswith_app. cbn [negb andb].
    rewrite drop_app_length. reflexivity.
  - apply normalize_path_no_backslash.
Qed.

(** Witness of C9 (amended): the mount point "../" before "../x". *)
Lemma normalize_path_idempotent_unless_prefix_witness :
  dotdot_mount <> []
  /\ normalize_path dotdot_mount (dotdot_mount ++ [46; 46; 47; 120])
     = lstrip SLASH (replace BACKSLASH SLASH [46; 46; 47; 120]).
Proof.
  assert (H : dotdot_mount <> []) by discriminate.
  split; [exact H |].
  exact (proj1 (proj2 normalize_path_idempotent_unless_prefix)
           dotdot_mount [46; 46; 47; 120] H).
Defined.

(** Counterexample to C9 as stated: with the mount point "../" the path
    "../../x" is normalized to "../x", and "../x" to "x". *)
Lemma normalize_path_not_idempotent_counterexample :
  normalize_path dotdot_mount dotdot_path = [46; 46; 47; 120]
  /\ normalize_path dotdot_mount (normalize_path dotdot_mount dotdot_path) = [120]
  /\ normalize_path dotdot_mount (normalize_path dotdot_mount dotdot_path)
     <> normalize_path dotdot_mount dotdot_path.
Proof.
  repeat split; try reflexivity. discriminate.
Qed.

(** ** Triples for the methods *)

Section Triples.

Context {A : Type} (P : extractor -> Prop)
        (Q : A -> extractor -> Prop) (E : extractor -> Prop).

Lemma triple_ret (a : A) :
  (forall s, P s -> Q a s) -> triple P (ret a) Q E.
Proof. intros H w Hw. cbn. auto. Qed.

Lemma triple_lift (r : res A) :
  (forall s a, P s -> r = Ok a -> Q a s) -> (forall s, P s -> E s) ->
  triple P (lift r) Q E.
Proof. intros HQ HE w Hw. unfold lift. destruct r; auto. Qed.

Lemma triple_bind {B} (m : M B) (k : B -> M A) (R : B -> extractor -> Prop) :
  triple P m R E -> (forall b, triple (R b) (k b) Q E) ->
  triple P (bind m k) Q E.
Proof.
  intros Hm Hk w Hw. unfold bind. specialize (Hm w Hw).
  destruct (m w) as [[b|e] w']; [apply Hk; exact Hm | exact Hm].
Qed.

Lemma triple_try (m : M A) (h : exn -> M A) (E' : extractor -> Prop) :
  triple P m Q E' -> (forall e, triple E' (h e) Q E) ->
  triple P (try_except m h) Q E.
Proof.
  intros Hm Hh w Hw. unfold try_except. specialize (Hm w Hw).
  destruct (m w) as [[a|e] w']; [exact Hm | apply Hh; exact Hm].
Qed.

Lemma triple_set_self (Q' : unit -> extractor -> Prop) f :
  (forall s, P s -> Q' tt (f s)) -> triple P (set_self f) Q' E.
Proof. intros H w Hw. cbn. auto. Qed.

End Triples.

Section TripleReads.

Context {host : Host}.

Context (P : extractor -> Prop) (E : extractor -> Prop).
Variable pak : bytes.

Lemma triple_get_self (Q : extractor -> extractor -> Prop) :
  (forall s, P s -> Q s s) -> triple P get_self Q E.
Proof. intros H w Hw. cbn. auto. Qed.

Lemma triple_open_rb (Q : unit -> extractor -> Prop) :
  (forall s, P s -> Q tt s) -> triple P open_rb Q E.
Proof. intros H w Hw. cbn. auto. Qed.

Lemma triple_f_seek (Q : unit -> extractor -> Prop) pos :
  (forall s, P s -> Q tt s) -> (forall s, P s -> E s) ->
  triple P (f_seek pak pos) Q E.
Proof.
  intros H HE w Hw. unfold f_seek.
  destruct (seekable pak pos); [cbn; auto |].
  destruct (_ <=? _); cbn; auto.
Qed.

(** [f.read(n)] returns at most [n] bytes when [n] is not negative. *)
Lemma triple_f_read (Q : bytes -> extractor -> Prop) n :
  (forall s got, P s -> ((0 <= n)%Z -> (length got <= Z.to_nat n)%nat) -> Q got s) ->
  (forall s, P s -> E s) ->
  triple P (f_read pak n) Q E.
Proof.
  intros HQ HE w Hw. unfold f_read.
  destruct (Z.ltb_spec n (-1)); [cbn; auto |].
  destruct (readable pak n); cbn [negb];
    [| destruct (_ <? _)%Z; cbn; auto].
  cbn. apply HQ; [exact Hw |]. intros Hn.
  destruct (Z.eqb_spec n (-1)); [lia |].
  rewrite length_take. lia.
Qed.

Lemma triple_read_Q (Q : N -> extractor -> Prop) :
  (forall s v, P s -> v < 2 ^ 64 -> Q v s) -> (forall s, P s -> E s) ->
  triple P (read_Q pak) Q E.
Proof.
  intros HQ HE. unfold read_Q.
  apply triple_bind with (R := fun _ s => P s).
  - apply triple_f_read; auto.
  - intros b. apply triple_lift; [| exact HE].
    intros s v Hs Hv. apply HQ; [exact Hs |].
    apply unpack_le_bound in Hv. exact Hv.
Qed.

Lemma triple_read_I (Q : N -> extractor -> Prop) :
  (forall s v, P s -> v < 2 ^ 32 -> Q v s) -> (forall s, P s -> E s) ->
  triple P (read_I pak) Q E.
Proof.
  intros HQ HE. unfold read_I.
  apply triple_bind with (R := fun _ s => P s).
  - apply triple_f_read; auto.
  - intros b. apply triple_lift; [| exact HE].
    intros s v Hs Hv. apply HQ; [exact Hs |].
    apply unpack_le_bound in Hv. exact Hv.
Qed.

Lemma triple_read_string (Q : str -> extractor -> Prop) :
  (forall s v, P s -> Q v s) -> (forall s, P s -> E s) ->
  triple P (read_string pak) Q E.
Proof.
  intros HQ HE. unfold read_string.
  apply triple_bind with (R := fun _ s => P s); [apply triple_f_read; auto |].
  intros b.
  apply triple_bind with (R := fun _ s => P s); [apply triple_lift; auto |].
  intros n.
  destruct (n =? 0)%Z; [apply triple_ret; auto |].
  destruct (n <? 0)%Z;
    (apply triple_bind with (R := fun _ s => P s);
     [apply triple_f_read; auto | intros raw; apply triple_ret; auto]).
Qed.

End TripleReads.

(** The block table that [read_blocks] returns: what it was given,
    followed by [block_count] pairs of 64-bit values. *)
Lemma triple_read_blocks {host : Host} (P E : extractor -> Prop) pak
  (Q : list (N * N) -> extractor -> Prop) n :
  forall acc,
    (forall s new, P s -> length new = n ->
                   Forall (fun b : N * N => b.1 < 2 ^ 64 /\ b.2 < 2 ^ 64) new ->
                   Q (acc ++ new) s) ->
    (forall s, P s -> E s) ->
    triple P (read_blocks pak n acc) Q E.
Proof.
  induction n as [|n IH]; intros acc HQ HE; cbn [read_blocks].
  - apply triple_ret. intros s Hs.
    rewrite <- (app_nil_r acc). apply HQ; [exact Hs | reflexivity | constructor].
  - apply triple_bind with (R := fun v s => P s /\ v < 2 ^ 64);
      [apply triple_read_Q; auto |].
    intros bs.
    apply triple_bind with (R := fun v s => (P s /\ bs < 2 ^ 64) /\ v < 2 ^ 64);
      [apply triple_read_Q; [auto | intros s [Hs _]; auto] |].
    intros be w [[Hw Hbs] Hbe].
    refine (IH (acc ++ [(bs, be)]) _ HE w Hw).
    intros s new Hs Hlen Hall.
    rewrite <- app_assoc. apply HQ; [exact Hs | cbn; lia |].
    constructor; [cbn; auto | exact Hall].
Qed.

Lemma triple_bind_pure {A B} (P E : extractor -> Prop) (m : M B) (k : B -> M A)
  (Q : A -> extractor -> Prop) (phi : B -> Prop) :
  triple P m (fun b s => P s /\ phi b) E ->
  (forall b, phi b -> triple P (k b) Q E) ->
  triple P (bind m k) Q E.
Proof.
  intros Hm Hk. apply triple_bind with (R := fun b s => P s /\ phi b); [exact Hm |].
  intros b w [Hw Hb]. exact (Hk b Hb w Hw).
Qed.

Lemma head_lstrip c (s : str) : head (lstrip c s) <> Some c.
Proof.
  induction s as [|d s IH]; [discriminate |].
  cbn. destruct (N.eqb_spec d c) as [->|Hne]; [exact IH |].
  cbn. congruence.
Qed.

Lemma normalize_path_normalized mp p : normalized_name (normalize_path mp p).
Proof.
  split; [apply normalize_path_no_backslash |].
  unfold normalize_path. apply head_lstrip.
Qed.

(** ** The entries that the index parser stores *)

Section StoredEntries.

Context {host : Host}.

Variable pak : bytes.

(** [I k] is what is known of the object after [k] entries may have
    been stored. *)
Variable I : nat -> extractor -> Prop.

Hypothesis I_next : forall k s, I k s -> I (S k) s.

Hypothesis I_store :
  forall k s name e,
    I k s ->
    entry_named name e ->
    entry_in_range (pak_version s) e ->
    flag_derived e ->
    UnrealPakEntry.compression_block_size e = 0 ->
    I (S k) (mk (pak_version s) (index_offset s) (index_size s)
                (mount_point s) (encrypted s) (<[name := e]> (entries s))).

Hypothesis I_mount :
  forall k s mp,
    I k s ->
    I k (mk (pak_version s) (index_offset s) (index_size s) mp
            (encrypted s) (entries s)).

Lemma triple_parse_entry k :
  triple (I k) (parse_entry pak) (fun _ s => I (S k) s) (I (S k)).
Proof.
  pose proof (I_next k) as Hnext.
  unfold parse_entry.
  apply triple_bind_pure with (phi := fun _ => True);
    [apply triple_read_string; auto | intros filename _].
  destruct (bool_decide (filename = [])); [apply triple_ret; auto |].
  apply triple_bind with (R := fun a s => I k s /\ a = s);
    [apply triple_get_self; auto |].
  intros self. cbv zeta.
  set (P1 := fun s => I k s /\ self = s).
  assert (HE : forall s, P1 s -> I (S k) s) by (intros s [Hs _]; auto).
  apply triple_bind_pure with (phi := fun v => v < 2 ^ 64);
    [apply triple_read_Q; auto | intros offset Hoffset].
  apply triple_bind_pure with (phi := fun v => v < 2 ^ 64);
    [apply triple_read_Q; auto | intros csize Hcsize].
  apply triple_bind_pure with (phi := fun v => v < 2 ^ 64);
    [apply triple_read_Q; auto | intros usize Husize].
  apply triple_bind_pure with (phi := fun v => v < 2 ^ 32);
    [apply triple_read_I; auto | intros method Hmethod].
  apply triple_bind_pure
    with (phi := fun v => v < 2 ^ 64 /\ (pak_version self < 8 -> v = 0)).
  { destruct (N.leb_spec 8 (pak_version self)).
    - apply triple_read_Q; [| exact HE]. intros s v Hs Hv.
      split; [exact Hs | split; [exact Hv | lia]].
    - apply triple_ret. intros s Hs.
      split; [exact Hs | split; [reflexivity | auto]]. }
  intros timestamp [Hts Hts0].
  apply triple_bind_pure with (phi := fun b : bytes => (length b <= 20)%nat).
  { apply triple_f_read; [| exact HE]. intros s got Hs Hgot.
    split; [exact Hs |]. apply Hgot. lia. }
  intros file_hash Hhash.
  apply triple_bind_pure
    with (phi := fun bl : list (N * N) =>
                   (method = COMPRESS_None -> bl = [])
                   /\ N.of_nat (length bl) < 2 ^ 32
                   /\ Forall (fun b : N * N => b.1 < 2 ^ 64 /\ b.2 < 2 ^ 64) bl).
  { destruct (N.eqb_spec method COMPRESS_None) as [Hm|Hm]; cbn [negb].
    - apply triple_ret. intros s Hs.
      split; [exact Hs | split; [auto | split; [reflexivity | constructor]]].
    - apply triple_bind_pure with (phi := fun v => v < 2 ^ 32);
        [apply triple_read_I; auto | intros block_count Hcount].
      apply triple_read_blocks; [| exact HE].
      intros s new Hs Hlen Hall. cbn [app].
      split; [exact Hs | split; [contradiction | split; [| exact Hall]]].
      rewrite Hlen, N2Nat.id. exact Hcount. }
  intros blocks (Hnone & Hlen & Hall).
  apply triple_set_self. intros s [Hs <-].
  apply I_store; [exact Hs | | | reflexivity | reflexivity].
  - split; [reflexivity | apply normalize_path_normalized].
  - repeat split; cbn; auto.
Qed.

Lemma triple_parse_entries n :
  forall k,
    triple (I k) (parse_entries pak n)
           (fun _ s => I (k + n)%nat s) (I (k + n)%nat).
Proof.
  induction n as [|n IH]; intros k; cbn [parse_entries].
  - apply triple_ret. intros s Hs. rewrite Nat.add_0_r. exact Hs.
  - apply triple_bind with (R := fun _ s => I (S k) s).
    + apply triple_try with (E' := I (S k)); [apply triple_parse_entry |].
      intros e. apply triple_ret. auto.
    + intros _ w Hw. specialize (IH (S k) w Hw).
      replace (k + S n)%nat with (S k + n)%nat by lia.
      destruct (parse_entries pak n w) as [[[]|e] w']; exact IH.
Qed.

(** [parse_index] stores at most 1,000,000 entries in one call. *)
Lemma triple_parse_index :
  triple (I 0%nat) (parse_index pak)
         (fun _ s => exists k, N.of_nat k <= 1000000 /\ I k s)
         (fun s => exists k, N.of_nat k <= 1000000 /\ I k s).
Proof.
  assert (H0 : forall s, I 0%nat s -> exists k, N.of_nat k <= 1000000 /\ I k s).
  { intros s Hs. exists 0%nat. split; [lia | exact Hs]. }
  unfold parse_index.
  apply triple_bind with (R := fun a s => I 0%nat s /\ a = s);
    [apply triple_get_self; auto |].
  intros self.
  destruct (encrypted self); [apply triple_ret; intros s [Hs _]; auto |].
  apply triple_try
    with (E' := fun s => exists k, N.of_nat k <= 1000000 /\ I k s);
    [| intros e; apply triple_ret; auto].
  apply triple_bind with (R := fun _ s => I 0%nat s);
    [apply triple_open_rb; intros s [Hs _]; exact Hs |].
  intros _.
  apply triple_bind with (R := fun _ s => I 0%nat s);
    [apply triple_f_seek; auto |].
  intros _.
  apply triple_bind_pure with (phi := fun _ => True);
    [apply triple_read_string; auto | intros mp _].
  apply triple_bind with (R := fun _ s => I 0%nat s);
    [apply triple_set_self; intros s Hs; apply I_mount; exact Hs |].
  intros _.
  apply triple_bind_pure with (phi := fun _ => True);
    [apply triple_read_I; auto | intros entry_count _].
  destruct (N.ltb_spec 1000000 entry_count) as [Hbig|Hok];
    [apply triple_ret; auto |].
  intros w Hw. unfold bind.
  pose proof (triple_parse_entries (N.to_nat entry_count) 0%nat w Hw) as Hrun.
  destruct (parse_entries pak (N.to_nat entry_count) w) as [[[]|e] w'];
    cbn in *; exists (N.to_nat entry_count); (split; [lia | exact Hrun]).
Qed.

End StoredEntries.

(** ** [parse] as a whole *)

Section ParseWhole.

Context {host : Host}.

Variable pak : bytes.

Lemma parse_index_returns w :
  exists b w', parse_index pak w = (Ok b, w').
Proof.
  unfold parse_index, bind, get_self.
  destruct (encrypted (w_self w)); [eauto |].
  unfold try_except.
  match goal with |- context [match ?x with _ => _ end] => destruct x as [[b|e] w'] end;
    cbn; eauto.
Qed.

(** [parse] is [parse_footer] followed, when it returned [True], by
    [parse_index], whose result it returns. *)
Lemma parse_decompose self :
  exists ok1 s1 l1,
    call (parse_footer pak) self = (Ok ok1, s1, l1)
    /\ entries s1 = entries self
    /\ (ok1 = false -> call (parse pak) self = (Ok false, s1, l1))
    /\ (ok1 = true ->
        exists p b w',
          parse_index pak (World s1 p l1) = (Ok b, w')
          /\ call (parse pak) self = (Ok b, w_self w', w_log w')).
Proof.
  destruct (parse_footer_entries pak self) as (ok1 & s1 & l1 & Hf & He).
  exists ok1, s1, l1. split; [exact Hf | split; [exact He |]].
  apply call_inv in Hf as [p Hf].
  split; intros ->.
  - unfold call, parse. unfold bind at 1. rewrite Hf. reflexivity.
  - destruct (parse_index_returns (World s1 p l1)) as (b & w' & Hi).
    exists p, b, w'. split; [exact Hi |].
    unfold call, parse. unfold bind at 1. rewrite Hf. cbn [negb].
    unfold bind. rewrite Hi. destruct b; reflexivity.
Qed.

Lemma parse_footer_true self s1 l1 :
  call (parse_footer pak) self = (Ok true, s1, l1) ->
  (44 <= length pak)%nat
  /\ index_offset s1 < N.of_nat (length pak)
  /\ index_size s1 <> 0.
Proof.
  destruct (Nat.lt_ge_cases (length pak) 44) as [Hs|Hs].
  - rewrite parse_footer_short by exact Hs. discriminate.
  - rewrite parse_footer_unfold by exact Hs. cbv zeta.
    assert (Hv : forall fs o s, index_region_valid fs o s = true -> o < fs /\ s <> 0).
    { intros fs o s. unfold index_region_valid.
      destruct (N.leb_spec fs o), (N.eqb_spec s 0); cbn; try discriminate.
      intros _. split; assumption. }
    destruct (_ =? PAK_MAGIC); [| destruct (_ =? PAK_MAGIC)];
      intros [= Hok <- _]; try discriminate;
      apply Hv in Hok; cbn [index_offset index_size]; tauto.
Qed.

Lemma triple_at {A} (P : extractor -> Prop) (m : M A) Q E s p l :
  triple P m Q E -> P s ->
  match m (World s p l) with
  | (Ok a, w') => Q a (w_self w')
  | (Raise _, w') => E (w_self w')
  end.
Proof. intros H Hs. exact (H (World s p l) Hs). Qed.

(** What [parse] leaves in a fresh object: named, in-range entries. *)
Lemma parsed_entries_well_formed name e :
  entries (call (parse pak) init).1.2 !! name = Some e ->
  entry_named name e
  /\ entry_in_range (pak_version (call (parse pak) init).1.2) e.
Proof.
  destruct (parse_decompose init) as (ok1 & s1 & l1 & Hf & He & Hfalse & Htrue).
  cbn [entries init] in He.
  destruct ok1.
  - destruct (Htrue eq_refl) as (p & b & w' & Hi & Hp). rewrite Hp. cbn [fst snd].
    set (v := pak_version s1).
    pose (I := fun (_ : nat) s =>
                 pak_version s = v
                 /\ map_Forall (fun name e => entry_named name e
                                              /\ entry_in_range v e) (entries s)).
    assert (HI : triple (I 0%nat) (parse_index pak)
                   (fun _ s => exists k, N.of_nat k <= 1000000 /\ I k s)
                   (fun s => exists k, N.of_nat k <= 1000000 /\ I k s)).
    { apply triple_parse_index.
      - intros k s Hs. exact Hs.
      - intros k s n0 e0 [Hv Hs] Hn Hr _ _. split; [exact Hv |].
        cbn [entries]. apply map_Forall_insert_2; [| exact Hs].
        rewrite Hv in Hr. split; assumption.
      - intros k s mp Hs. exact Hs. }
    pose proof (triple_at _ _ _ _ s1 p l1 HI) as Hrun.
    rewrite Hi in Hrun.
    destruct Hrun as (k & _ & Hv & Hall).
    { split; [reflexivity |]. rewrite He. apply map_Forall_empty. }
    intros Hin. rewrite Hv. exact (Hall name e Hin).
  - rewrite (Hfalse eq_refl). cbn [fst snd]. rewrite He, lookup_empty. discriminate.
Qed.

(** The fields that [parse_footer] sets are not changed by
    [parse_index]. *)
Lemma parse_index_keeps_footer_fields w b w' :
  parse_index pak w = (Ok b, w') ->
  pak_version (w_self w') = pak_version (w_self w)
  /\ index_offset (w_self w') = index_offset (w_self w)
  /\ index_size (w_self w') = index_size (w_self w)
  /\ encrypted (w_self w') = encrypted (w_self w).
Proof.
  intros Hi.
  pose (I := fun (_ : nat) s =>
               pak_version s = pak_version (w_self w)
               /\ index_offset s = index_offset (w_self w)
               /\ index_size s = index_size (w_self w)
               /\ encrypted s = encrypted (w_self w)).
  assert (HI : triple (I 0%nat) (parse_index pak)
                 (fun _ s => exists k, N.of_nat k <= 1000000 /\ I k s)
                 (fun s => exists k, N.of_nat k <= 1000000 /\ I k s)).
  { apply triple_parse_index; intros; assumption. }
  specialize (HI w). rewrite Hi in HI.
  destruct HI as (k & _ & H); [repeat split | exact H].
Qed.

(** The number of entries that one call of [parse_index] adds. *)
Lemma parse_index_size w b w' :
  parse_index pak w = (Ok b, w') ->
  N.of_nat (size (entries (w_self w')))
  <= N.of_nat (size (entries (w_self w))) + 1000000.
Proof.
  intros Hi.
  pose (I := fun (k : nat) s =>
               (size (entries s) <= size (entries (w_self w)) + k)%nat).
  assert (HI : triple (I 0%nat) (parse_index pak)
                 (fun _ s => exists k, N.of_nat k <= 1000000 /\ I k s)
                 (fun s => exists k, N.of_nat k <= 1000000 /\ I k s)).
  { apply triple_parse_index; unfold I.
    - intros k s Hs. lia.
    - intros k s n0 e0 Hs _ _ _ _. cbn [entries].
      destruct (entries s !! n0) eqn:El;
        [rewrite map_size_insert_Some by eauto
        | rewrite map_size_insert_None by exact El]; lia.
    - intros k s mp Hs. exact Hs. }
  specialize (HI w). rewrite Hi in HI.
  destruct HI as (k & Hk & H); [unfold I; lia |]. unfold I in H. lia.
Qed.

End ParseWhole.

(** ** Further properties of the reader *)

(** X1.  [parse_footer], [parse_index] and [parse] never raise: on every
    file and from every object they return [True] or [False]. *)
Theorem parse_never_raises {host : Host} :
  forall (pak : bytes) (self : extractor),
    (exists ok s l, call (parse_footer pak) self = (Ok ok, s, l))
    /\ (exists ok s l, call (parse_index pak) self = (Ok ok, s, l))
    /\ (exists ok s l, call (parse pak) self = (Ok ok, s, l)).
Proof.
  intros pak self. split; [| split].
  - destruct (parse_footer_entries pak self) as (ok & s & l & H & _). eauto.
  - destruct (parse_index_returns pak (World self 0 [])) as (b & w' & H).
    exists b, (w_self w'), (w_log w'). unfold call. rewrite H. reflexivity.
  - destruct (parse_decompose pak self)
      as (ok1 & s1 & l1 & _ & _ & Hfalse & Htrue).
    destruct ok1.
    + destruct (Htrue eq_refl) as (p & b & w' & _ & H). eauto.
    + rewrite (Hfalse eq_refl). eauto.
Qed.

(** X2.  When [parse] returns [True], the file has at least 44 bytes,
    the encrypted flag of the object is [False], its index offset lies
    inside the file and its index size is not zero. *)
Theorem parse_success_means_readable_index {host : Host} :
  forall (pak : bytes) (self self' : extractor) (l : list event),
    call (parse pak) self = (Ok true, self', l) ->
    (44 <= length pak)%nat
    /\ encrypted self' = false
    /\ index_offset self' < N.of_nat (length pak)
    /\ index_size self' <> 0.
Proof.
  intros pak self self' l Hp.
  destruct (parse_decompose pak self)
    as (ok1 & s1 & l1 & Hf & _ & Hfalse & Htrue).
  destruct ok1; [| rewrite (Hfalse eq_refl) in Hp; discriminate].
  destruct (Htrue eq_refl) as (p & b & w' & Hi & Hp').
  rewrite Hp' in Hp. injection Hp as -> <- _.
  destruct (parse_footer_true pak self s1 l1 Hf) as (Hlen & Ho & Hs).
  destruct (parse_index_keeps_footer_fields pak _ _ _ Hi)
    as (_ & Ho' & Hs' & He'). cbn [w_self] in *.
  rewrite Ho', Hs', He'. repeat split; try assumption.
  destruct (encrypted s1) eqn:Henc; [| reflexivity].
  unfold parse_index, bind, get_self in Hi. cbn [w_self] in Hi.
  rewrite Henc in Hi. discriminate.
Qed.

(** Witness of X2: the sample archive. *)
Lemma parse_success_means_readable_index_witness :
  call (parse sample_pak) init
  = (Ok true, (call (parse sample_pak) init).1.2, (call (parse sample_pak) init).2)
  /\ (44 <= length sample_pak)%nat
  /\ encrypted (call (parse sample_pak) init).1.2 = false
  /\ index_offset (call (parse sample_pak) init).1.2 < N.of_nat (length sample_pak)
  /\ index_size (call (parse sample_pak) init).1.2 <> 0.
Proof.
  assert (H : call (parse sample_pak) init
              = (Ok true, (call (parse sample_pak) init).1.2,
                 (call (parse sample_pak) init).2)) by (vm_compute; reflexivity).
  split; [exact H |].
  exact (parse_success_means_readable_index sample_pak init _ _ H).
Defined.

(** X3.  A file of fewer than 44 bytes is rejected by [parse_footer] and
    by [parse] after the size has been measured: nothing is read and the
    object is not changed, also when the file holds the 28 bytes of an
    older footer. *)
Theorem short_file_is_rejected {host : Host} :
  forall (pak : bytes) (self : extractor),
    (length pak < 44)%nat ->
    call (parse_footer pak) self = (Ok false, self, [EvOpen; EvSeekEnd 0])
    /\ call (parse pak) self = (Ok false, self, [EvOpen; EvSeekEnd 0]).
Proof.
  intros pak self Hs.
  pose proof (parse_footer_short pak self Hs) as Hf.
  split; [exact Hf |].
  destruct (parse_decompose pak self)
    as (ok1 & s1 & l1 & Hf' & _ & Hfalse & _).
  rewrite Hf in Hf'. injection Hf' as <- <- <-.
  apply Hfalse. reflexivity.
Qed.

(** Witness of X3: a file that is an older footer and nothing else. *)
Lemma short_file_is_rejected_witness :
  (length older_footer_alone < 44)%nat
  /\ le_decode (slice older_footer_alone 0 4) = PAK_MAGIC
  /\ call (parse_footer older_footer_alone) init
     = (Ok false, init, [EvOpen; EvSeekEnd 0])
  /\ call (parse older_footer_alone) init
     = (Ok false, init, [EvOpen; EvSeekEnd 0]).
Proof.
  assert (H : (length older_footer_alone < 44)%nat) by (vm_compute; lia).
  split; [exact H | split; [reflexivity |]].
  exact (short_file_is_rejected older_footer_alone init H).
Defined.

(** X4.  When fewer than four bytes of the file follow the index offset,
    [parse_index] returns [False] after one read, or after the seek
    when the seek to the index offset is not served, and leaves the
    object, mount point included, as it was. *)
Theorem parse_index_without_header {host : Host} :
  forall (pak : bytes) (self : extractor),
    encrypted self = false ->
    N.of_nat (length pak) < index_offset self + 4 ->
    call (parse_index pak) self
    = (Ok false, self,
       if seekable pak (index_offset self)
       then [EvOpen; EvSeek (index_offset self); EvRead 4]
       else [EvOpen; EvSeek (index_offset self)]).
Proof.
  intros pak self Henc Hshort.
  unfold call, parse_index. unfold bind at 1. cbn [get_self w_self].
  rewrite Henc. unfold try_except.
  unfold bind at 1. cbn [open_rb]. unfold bind at 1.
  destruct (seekable pak (index_offset self)) eqn:Hs.
  - rewrite f_seek_ok by exact Hs.
    unfold bind at 1. unfold read_string. unfold bind at 1.
    rewrite f_read_small by lia. cbv zeta. cbn [set_pos log w_pos w_self w_log].
    unfold bind at 1. unfold lift, unpack_i, unpack_le.
    destruct (Nat.eqb_spec
                (length (take (Z.to_nat 4) (drop (N.to_nat (index_offset self)) pak)))
                4) as [Hl|_].
    + rewrite length_take, length_drop in Hl. lia.
    + destruct self; reflexivity.
  - match goal with
    | |- context [f_seek pak ?q ?w0] =>
        destruct (f_seek_refused pak q w0 Hs) as [ex E]; rewrite E
    end.
    destruct self; reflexivity.
Qed.

(** Witness of X4: an index offset two bytes before the end of the
    file. *)
Lemma parse_index_without_header_witness :
  encrypted index_at_8 = false
  /\ N.of_nat (length ten_bytes) < index_offset index_at_8 + 4
  /\ call (parse_index ten_bytes) index_at_8
     = (Ok false, index_at_8, [EvOpen; EvSeek (index_offset index_at_8); EvRead 4]).
Proof.
  assert (H1 : encrypted index_at_8 = false) by reflexivity.
  assert (H2 : N.of_nat (length ten_bytes) < index_offset index_at_8 + 4)
    by (vm_compute; reflexivity).
  split; [exact H1 | split; [exact H2 |]].
  exact (parse_index_without_header ten_bytes index_at_8 H1 H2).
Defined.

(** X5.  One call of [parse_index] adds at most 1,000,000 entries to
    the mapping; after [parse] on a fresh object the mapping has at most
    1,000,000 entries. *)
Theorem parse_index_entry_ceiling {host : Host} :
  forall (pak : bytes) (self : extractor),
    N.of_nat (size (entries (call (parse_index pak) self).1.2))
    <= N.of_nat (size (entries self)) + 1000000
    /\ N.of_nat (size (entries (call (parse pak) init).1.2)) <= 1000000.
Proof.
  intros pak self. split.
  - destruct (parse_index_returns pak (World self 0 [])) as (b & w' & H).
    unfold call. rewrite H. cbn [fst snd].
    exact (parse_index_size pak _ _ _ H).
  - destruct (parse_decompose pak init)
      as (ok1 & s1 & l1 & _ & He & Hfalse & Htrue).
    cbn [entries init] in He.
    destruct ok1.
    + destruct (Htrue eq_refl) as (p & b & w' & Hi & Hp). rewrite Hp.
      cbn [fst snd]. pose proof (parse_index_size pak _ _ _ Hi) as Hs.
      cbn [w_self] in Hs. rewrite He, map_size_empty in Hs. exact Hs.
    + rewrite (Hfalse eq_refl). cbn [fst snd]. rewrite He, map_size_empty. lia.
Qed.

(** X6.  Every entry that [parse] leaves in a fresh object is stored
    under its own file name, and that name holds no backslash and does
    not start with a slash. *)
Theorem parsed_entries_are_named {host : Host} :
  forall (pak : bytes) (name : str) (e : UnrealPakEntry.t),
    entries (call (parse pak) init).1.2 !! name = Some e ->
    UnrealPakEntry.filename e = name
    /\ Forall (fun c => c <> BACKSLASH) name
    /\ head name <> Some SLASH.
Proof.
  intros pak name e Hin.
  destruct (parsed_entries_well_formed pak name e Hin) as [[Hn [Hb Hs]] _].
  auto.
Qed.

(** Witness of X6: the entry "a" of the sample archive, stored in the
    index as "../a". *)
Lemma parsed_entries_are_named_witness :
  entries (call (parse sample_pak) init).1.2 !! [97] = Some sample_entry_a
  /\ UnrealPakEntry.filename sample_entry_a = [97]
  /\ Forall (fun c => c <> BACKSLASH) ([97] : str)
  /\ head ([97] : str) <> Some SLASH.
Proof.
  assert (H : entries (call (parse sample_pak) init).1.2 !! [97]
              = Some sample_entry_a) by (vm_compute; reflexivity).
  split; [exact H |].
  exact (parsed_entries_are_named sample_pak [97] sample_entry_a H).
Defined.

(** X7.  Every entry that [parse] leaves in a fresh object has its
    offset, sizes and timestamp below 2^64 and its method below 2^32, a
    hash of at most 20 bytes, fewer than 2^32 blocks with bounds below
    2^64, no block when its method is [None], and the timestamp 0 when
    the version of the archive is below 8. *)
Theorem parsed_entries_are_in_range {host : Host} :
  forall (pak : bytes) (name : str) (e : UnrealPakEntry.t),
    entries (call (parse pak) init).1.2 !! name = Some e ->
    entry_in_range (pak_version (call (parse pak) init).1.2) e.
Proof.
  intros pak name e Hin.
  exact (proj2 (parsed_entries_well_formed pak name e Hin)).
Qed.

(** Witness of X7: the entry "z" of the sample archive. *)
Lemma parsed_entries_are_in_range_witness :
  entries (call (parse sample_pak) init).1.2 !! [122] = Some sample_entry_z
  /\ entry_in_range (pak_version (call (parse sample_pak) init).1.2) sample_entry_z.
Proof.
  assert (H : entries (call (parse sample_pak) init).1.2 !! [122]
              = Some sample_entry_z) by (vm_compute; reflexivity).
  split; [exact H |].
  exact (parsed_entries_are_in_range sample_pak [122] sample_entry_z H).
Defined.

(** X8.  [extract_file_data] never raises and never changes the
    object: its result (the bytes, or [None]) and what it does to the
    file are the same from every object. *)
Theorem extract_file_data_never_raises {host : Host} :
  forall zlib_decompress (pak : bytes) (e : UnrealPakEntry.t),
    exists (out : option bytes) (l : list event),
      forall self : extractor,
        call (extract_file_data zlib_decompress pak e) self = (Ok out, self, l).
Proof.
  intros zlib pak e.
  destruct (frame_extract_file_data zlib pak e 0 []) as (r & p & l & H).
  assert (Hr : exists out, r = Ok out).
  { specialize (H init). unfold extract_file_data in H.
    destruct (UnrealPakEntry.encrypted e);
      [injection H as <- _; eauto |].
    unfold try_except in H.
    match type of H with
    | context [match ?x with _ => _ end] => destruct x as [[a|ex] w']
    end; cbn in H; injection H as <- _; eauto. }
  destruct Hr as [out ->]. exists out, l. intros self.
  unfold call. rewrite H. reflexivity.
Qed.

(** X9.  An unencrypted compressed entry without block table is
    extracted by one seek to its offset, one read of [compressed_size]
    bytes and one call of the codec on them; when that call raises, the
    extraction returns [None], where a block of a table would have
    contributed its raw bytes; when the seek or the read is not served,
    the extraction returns [None] without calling the codec; both are
    served when the span lies inside the file.  A method other than
    Zlib and Gzip returns the bytes as they were read. *)
Theorem extract_whole_span {host : Host} :
  forall zlib_decompress (pak : bytes) (self : extractor) (e : UnrealPakEntry.t),
    UnrealPakEntry.encrypted e = false ->
    UnrealPakEntry.is_compressed e = true ->
    UnrealPakEntry.compression_blocks e = [] ->
    call (extract_file_data zlib_decompress pak e) self =
      (if seekable pak (UnrealPakEntry.offset e) then
         if readable pak (Z.of_N (UnrealPakEntry.compressed_size e)) then
           (Ok (decompressed zlib_decompress
                  (read_at pak (UnrealPakEntry.offset e)
                           (UnrealPakEntry.compressed_size e))
                  (UnrealPakEntry.compression_method e)),
            self,
            [EvOpen; EvSeek (UnrealPakEntry.offset e);
             EvRead (Z.of_N (UnrealPakEntry.compressed_size e))]
            ++ codec_events (UnrealPakEntry.compression_method e))
         else
           (Ok None, self,
            [EvOpen; EvSeek (UnrealPakEntry.offset e);
             EvRead (Z.of_N (UnrealPakEntry.compressed_size e))])
       else (Ok None, self, [EvOpen; EvSeek (UnrealPakEntry.offset e)]))
    /\ (UnrealPakEntry.offset e + UnrealPakEntry.compressed_size e
        <= N.of_nat (length pak) ->
        seekable pak (UnrealPakEntry.offset e) = true
        /\ readable pak (Z.of_N (UnrealPakEntry.compressed_size e)) = true)
    /\ (UnrealPakEntry.compression_method e <> COMPRESS_ZLIB ->
        UnrealPakEntry.compression_method e <> COMPRESS_GZIP ->
        decompressed zlib_decompress
          (read_at pak (UnrealPakEntry.offset e)
                   (UnrealPakEntry.compressed_size e))
          (UnrealPakEntry.compression_method e)
        = Some (read_at pak (UnrealPakEntry.offset e)
                        (UnrealPakEntry.compressed_size e))).
Proof.
  intros zlib pak self e Henc Hcomp Hblocks. split; [| split].
  2: { intros Hin. split; [apply seekable_inside | apply readable_inside]; lia. }
  - unfold call, extract_file_data. rewrite Henc, Hcomp, Hblocks.
    rewrite bool_decide_eq_true_2 by reflexivity. cbn [negb].
    unfold try_except, open_rb.
    unfold bind at 1. unfold bind at 1.
    destruct (seekable pak (UnrealPakEntry.offset e)) eqn:Hs.
    + rewrite f_seek_ok by exact Hs. unfold bind at 1.
      destruct (readable pak (Z.of_N (UnrealPakEntry.compressed_size e))) eqn:Hr.
      * rewrite f_read_ok by (first [lia | exact Hr]).
        cbv zeta. cbn [set_pos log w_pos w_self w_log].
        replace (Z.to_nat (Z.of_N (UnrealPakEntry.compressed_size e)))
          with (N.to_nat (UnrealPakEntry.compressed_size e)) by lia.
        fold (read_at pak (UnrealPakEntry.offset e)
                (UnrealPakEntry.compressed_size e)).
        unfold bind. rewrite decompress_data_run. cbn [w_self w_pos w_log].
        unfold log. cbn [w_self w_pos w_log].
        destruct (decompressed zlib _ _); cbn [app]; reflexivity.
      * match goal with
        | |- context [f_read pak ?n ?w0] =>
            destruct (f_read_refused pak n w0 Hr) as [ex E]; rewrite E
        end.
        reflexivity.
    + match goal with
      | |- context [f_seek pak ?q ?w0] =>
          destruct (f_seek_refused pak q w0 Hs) as [ex E]; rewrite E
      end.
      reflexivity.
  - intros Hz Hg. unfold decompressed.
    destruct (N.eqb_spec (UnrealPakEntry.compression_method e) COMPRESS_ZLIB);
      [contradiction |].
    destruct (N.eqb_spec (UnrealPakEntry.compression_method e) COMPRESS_GZIP);
      [contradiction | reflexivity].
Qed.

(** Witness of X9: a Gzip entry whose span decompresses, one whose span
    does not, and an entry with the method [Custom]. *)
Lemma extract_whole_span_witness :
  (UnrealPakEntry.encrypted whole_span_entry = false
   /\ UnrealPakEntry.is_compressed whole_span_entry = true
   /\ UnrealPakEntry.compression_blocks whole_span_entry = []
   /\ call (extract_file_data toy_zlib blocks_pak whole_span_entry) init
      = (Ok (Some [x41; x42; x41; x42]), init,
         [EvOpen; EvSeek 0; EvRead 3; EvZlib 31]))
  /\ call (extract_file_data toy_zlib blocks_pak whole_span_bad_entry) init
     = (Ok None, init, [EvOpen; EvSeek 3; EvRead 2; EvZlib 31])
  /\ call (extract_file_data toy_zlib blocks_pak custom_codec_entry) init
     = (Ok (Some [x51; x52]), init, [EvOpen; EvSeek 3; EvRead 2]).
Proof.
  assert (H1 : UnrealPakEntry.encrypted whole_span_entry = false) by reflexivity.
  assert (H2 : UnrealPakEntry.is_compressed whole_span_entry = true) by reflexivity.
  assert (H3 : UnrealPakEntry.compression_blocks whole_span_entry = [])
    by reflexivity.
  split; [split; [exact H1 | split; [exact H2 | split; [exact H3 |]]] | split].
  - exact (proj1 (extract_whole_span toy_zlib blocks_pak init whole_span_entry
                    H1 H2 H3)).
  - exact (proj1 (extract_whole_span toy_zlib blocks_pak init whole_span_bad_entry
                    eq_refl eq_refl eq_refl)).
  - exact (proj1 (extract_whole_span toy_zlib blocks_pak init custom_codec_entry
                    eq_refl eq_refl eq_refl)).
Defined.

(** X10.  Whatever [read_string] returns does not end with a null
    character; it leaves the object alone and moves the cursor forward by
    at least the four bytes of the length prefix.  With fewer than four
    bytes left it raises; with the length prefix 0 it returns the empty
    string after reading these four bytes only. *)
Theorem read_string_result {host : Host} :
  (forall (pak : bytes) (w w' : world) (s : str),
      read_string pak w = (Ok s, w') ->
      last s <> Some NUL
      /\ w_self w' = w_self w
      /\ w_pos w + 4 <= w_pos w')
  /\ (forall (pak : bytes) (w : world),
        N.of_nat (length pak) < w_pos w + 4 ->
        (read_string pak w).1 = Raise struct_error)
  /\ (forall (pak : bytes) (w : world),
        unpack_i (read_at pak (w_pos w) 4) = Ok 0%Z ->
        read_string pak w
        = (Ok [], World (w_self w) (w_pos w + 4) (w_log w ++ [EvRead 4]))).
Proof.
  split; [| split].
  - intros pak w w' s. unfold read_string. unfold bind at 1.
    rewrite f_read_small by lia. cbv zeta. change (Z.to_nat 4) with (N.to_nat 4).
    fold (read_at pak (w_pos w) 4).
    unfold bind at 1. unfold lift at 1.
    destruct (unpack_i (read_at pak (w_pos w) 4)) as [n|ex] eqn:Hn;
      [| discriminate].
    assert (Hlen : length (read_at pak (w_pos w) 4) = 4%nat).
    { unfold unpack_i, unpack_le in Hn.
      destruct (Nat.eqb_spec (length (read_at pak (w_pos w) 4)) 4);
        [assumption | discriminate]. }
    rewrite Hlen. change (N.of_nat 4) with 4.
    destruct (n =? 0)%Z.
    + intros [= <- <-]. cbn [set_pos log w_self w_pos w_log].
      split; [discriminate | split; [reflexivity | lia]].
    + destruct (n <? 0)%Z; unfold bind, f_read;
        match goal with
        | |- context [(?x <? -1)%Z] =>
            destruct (x <? -1)%Z; [discriminate |];
            destruct (readable pak x); cbn [negb];
            [| destruct (_ <? _)%Z; discriminate]
        end;
        cbn [set_pos log w_pos w_self w_log ret];
        intros [= <- <-]; cbn [w_self w_pos set_pos log];
        (split; [apply rstrip_last | split; [reflexivity | lia]]).
  - intros pak w Hshort. unfold read_string. unfold bind at 1.
    rewrite f_read_small by lia. cbv zeta.
    unfold bind at 1. unfold lift, unpack_i, unpack_le.
    destruct (Nat.eqb_spec
                (length (take (Z.to_nat 4) (drop (N.to_nat (w_pos w)) pak))) 4)
      as [Hl|_]; [| reflexivity].
    rewrite length_take, length_drop in Hl. lia.
  - intros pak w Hn. unfold read_string. unfold bind at 1.
    rewrite f_read_small by lia. cbv zeta. change (Z.to_nat 4) with (N.to_nat 4).
    fold (read_at pak (w_pos w) 4).
    assert (Hlen : length (read_at pak (w_pos w) 4) = 4%nat).
    { unfold unpack_i, unpack_le in Hn.
      destruct (Nat.eqb_spec (length (read_at pak (w_pos w) 4)) 4);
        [assumption | discriminate]. }
    rewrite Hlen. unfold bind at 1. unfold lift at 1. rewrite Hn.
    reflexivity.
Qed.

(** Witness of X10: the string "abc" and its terminator. *)
Lemma read_string_result_witness :
  read_string narrow_abc (World init 0 [])
  = (Ok [97; 98; 99], World init 8 [EvRead 4; EvRead 4])
  /\ last ([97; 98; 99] : str) <> Some NUL
  /\ w_self (World init 8 [EvRead 4; EvRead 4]) = w_self (World init 0 [])
  /\ w_pos (World init 0 []) + 4 <= w_pos (World init 8 [EvRead 4; EvRead 4]).
Proof.
  assert (H : read_string narrow_abc (World init 0 [])
              = (Ok [97; 98; 99], World init 8 [EvRead 4; EvRead 4]))
    by reflexivity.
  split; [exact H |].
  exact (proj1 read_string_result narrow_abc _ _ _ H).
Defined.

(** X11.  [parse_footer] can be called again on the object it left: the
    second call returns the same value, does the same to the file and
    leaves the object as the first call left it. *)
Theorem parse_footer_idempotent {host : Host} :
  forall (pak : bytes) (self s1 : extractor) (r : res bool) (l : list event),
    call (parse_footer pak) self = (r, s1, l) ->
    call (parse_footer pak) s1 = (r, s1, l).
Proof.
  intros pak self s1 r l.
  destruct (Nat.lt_ge_cases (length pak) 44) as [Hs|Hs].
  - rewrite !parse_footer_short by exact Hs. intros [= <- <- <-]. reflexivity.
  - rewrite !parse_footer_unfold by exact Hs. cbv zeta.
    destruct (_ =? PAK_MAGIC); [| destruct (_ =? PAK_MAGIC)];
      intros [= <- <- <-]; reflexivity.
Qed.

(** Witness of X11: the sample archive, from a fresh object. *)
Lemma parse_footer_idempotent_witness :
  call (parse_footer sample_pak) init = (Ok true, mk 8 8 159 [] false ∅, newer_footer_log)
  /\ call (parse_footer sample_pak) (mk 8 8 159 [] false ∅)
     = (Ok true, mk 8 8 159 [] false ∅, newer_footer_log).
Proof.
  assert (H : call (parse_footer sample_pak) init
              = (Ok true, mk 8 8 159 [] false ∅, newer_footer_log))
    by (vm_compute; reflexivity).
  split; [exact H |].
  exact (parse_footer_idempotent sample_pak init _ _ _ H).
Defined.

(** ** The writer *)

Ltac Zify.zify_post_hook ::= Z.to_euclidean_division_equations.

Lemma to_N_byte_of_N (n : N) : n < 256 -> Byte.to_N (byte_of_N n) = n.
Proof.
  intros H. unfold byte_of_N.
  destruct (Byte.of_N n) as [b|] eqn:E.
  - cbn. apply Byte.to_of_N. exact E.
  - apply Byte.of_N_None_iff in E. lia.
Qed.

Lemma length_le_encode size v : length (le_encode size v) = size.
Proof.
  revert v. induction size as [|size IH]; intros v; [reflexivity |].
  cbn. rewrite IH. reflexivity.
Qed.

Lemma le_decode_le_encode size v :
  v < 256 ^ N.of_nat size -> le_decode (le_encode size v) = v.
Proof.
  revert v. induction size as [|size IH]; intros v Hv.
  - cbn in *. lia.
  - cbn [le_encode le_decode].
    rewrite Nat2N.inj_succ, N.pow_succ_r' in Hv.
    rewrite to_N_byte_of_N by lia.
    rewrite IH by lia. lia.
Qed.

Lemma pack_le_inv size v b :
  pack_le size v = Ok b ->
  (0 <= v < 256 ^ Z.of_nat size)%Z
  /\ b = le_encode size (Z.to_N v)
  /\ length b = size.
Proof.
  unfold pack_le.
  destruct (Z.leb_spec 0 v), (Z.ltb_spec v (256 ^ Z.of_nat size));
    cbn [andb]; try discriminate.
  intros Hb.
  assert (Eb : b = le_encode size (Z.to_N v)) by congruence.
  clear Hb. subst b. rewrite length_le_encode. auto.
Qed.

Lemma unpack_pack_le size v b :
  pack_le size v = Ok b -> unpack_le size b = Ok (Z.to_N v).
Proof.
  intros H. apply pack_le_inv in H as (Hv & -> & _).
  rewrite unpack_le_ok by apply length_le_encode.
  rewrite le_decode_le_encode; [reflexivity |].
  assert (E : Z.of_N (256 ^ N.of_nat size) = (256 ^ Z.of_nat size)%Z)
    by (rewrite N2Z.inj_pow, nat_N_Z; reflexivity).
  lia.
Qed.

Lemma pack_i_inv v b :
  pack_i v = Ok b ->
  (- 2 ^ 31 <= v < 2 ^ 31)%Z /\ length b = 4%nat /\ unpack_i b = Ok v.
Proof.
  unfold pack_i.
  destruct (Z.leb_spec (- 2 ^ 31) v), (Z.ltb_spec v (2 ^ 31));
    cbn [andb]; try discriminate.
  intros Hb.
  assert (Eb : b = le_encode 4 (Z.to_N (v mod 2 ^ 32))) by congruence.
  clear Hb. subst b.
  split; [lia |]. split; [apply length_le_encode |].
  unfold unpack_i. rewrite unpack_le_ok by apply length_le_encode.
  rewrite le_decode_le_encode by (change (256 ^ N.of_nat 4) with 4294967296; lia).
  f_equal.
  destruct (N.ltb_spec (Z.to_N (v mod 2 ^ 32)) (2 ^ 31)); lia.
Qed.

Section WriterRuns.

Variable sha1 : bytes -> bytes.
Variable extractor : option extractor.

Lemma w_bind_ok {A B} (m : PAKManager.W A) (k : A -> PAKManager.W B) out b out' :
  PAKManager.w_bind m k out = (Ok b, out') ->
  exists a mid, m out = (Ok a, mid) /\ k a mid = (Ok b, out').
Proof.
  unfold PAKManager.w_bind. destruct (m out) as [[a|e] mid]; [eauto | discriminate].
Qed.

Lemma write_ok_inv b out (u : unit) out' :
  PAKManager.write b out = (Ok u, out') -> out' = out ++ b.
Proof. unfold PAKManager.write. congruence. Qed.

Lemma write_packed_ok_inv r out (u : unit) out' :
  PAKManager.write_packed r out = (Ok u, out') ->
  exists b, r = Ok b /\ out' = out ++ b.
Proof.
  unfold PAKManager.write_packed. destruct r as [b|e]; [| discriminate].
  intros [= _ <-]. eauto.
Qed.

Lemma write_string_run s out :
  PAKManager._write_string s out =
    match string_bytes s with
    | Ok b => (Ok tt, out ++ b)
    | Raise e => (Raise e, out)
    end.
Proof.
  unfold PAKManager._write_string, string_bytes.
  destruct (bool_decide (s = [])); [reflexivity |].
  unfold PAKManager.w_bind, PAKManager.w_lift, res_bind.
  destruct (utf8_encode s) as [b|e]; [| reflexivity].
  unfold PAKManager.write_packed, PAKManager.write.
  destruct (pack_i _) as [h|e]; [| reflexivity].
  rewrite <- app_assoc. reflexivity.
Qed.

Lemma write_string_ok_inv s out (u : unit) out' :
  PAKManager._write_string s out = (Ok u, out') ->
  exists b, string_bytes s = Ok b /\ out' = out ++ b.
Proof.
  rewrite write_string_run. destruct (string_bytes s) as [b|e]; [| discriminate].
  intros [= _ <-]. eauto.
Qed.

Lemma write_files_run files : forall off es out,
  PAKManager.write_files sha1 files off es out =
    (Ok ((off + total_size files)%Z, es ++ entries_from sha1 off files),
     out ++ concat (map PAKManager.file_data files)).
Proof.
  induction files as [|f files IH]; intros off es out.
  - cbn. unfold PAKManager.w_ret, total_size. cbn.
    rewrite Z.add_0_r, !app_nil_r. reflexivity.
  - cbn [PAKManager.write_files]. cbv zeta.
    unfold PAKManager.w_bind at 1. unfold PAKManager.write at 1.
    rewrite IH. cbn [map concat entries_from]. cbv zeta.
    unfold total_size. cbn [map concat]. rewrite length_app, Nat2Z.inj_add.
    rewrite <- !app_assoc, Z.add_assoc. reflexivity.
Qed.

Lemma write_entries_ok_inv es : forall out (u : unit) out',
  PAKManager.write_entries es out = (Ok u, out') ->
  exists b, entries_bytes es = Ok b /\ out' = out ++ b.
Proof.
  induction es as [|e es IH]; intros out u out' H.
  - cbn in H. injection H as _ <-. exists []. rewrite app_nil_r. auto.
  - cbn [PAKManager.write_entries] in H.
    apply w_bind_ok in H as (? & m1 & H1 & H).
    apply write_string_ok_inv in H1 as (n & Hn & ->).
    apply w_bind_ok in H as (? & m2 & H2 & H).
    apply write_packed_ok_inv in H2 as (o & Ho & ->).
    apply w_bind_ok in H as (? & m3 & H3 & H).
    apply write_packed_ok_inv in H3 as (c & Hc & ->).
    apply w_bind_ok in H as (? & m4 & H4 & H).
    apply write_packed_ok_inv in H4 as (s & Hs & ->).
    apply w_bind_ok in H as (? & m5 & H5 & H).
    apply write_packed_ok_inv in H5 as (m & Hm & ->).
    apply w_bind_ok in H as (? & m6 & H6 & H).
    apply write_packed_ok_inv in H6 as (t & Ht & ->).
    apply w_bind_ok in H as (? & m7 & H7 & H).
    apply write_ok_inv in H7 as ->.
    apply w_bind_ok in H as (? & m8 & H8 & H).
    apply write_packed_ok_inv in H8 as (z & Hz & ->).
    apply IH in H as (bs & Hbs & ->).
    exists ((n ++ o ++ c ++ s ++ m ++ t ++ PAKManager.fe_hash e ++ z) ++ bs).
    split.
    + cbn [entries_bytes]. unfold entry_bytes.
      rewrite Hn, Ho, Hc, Hs, Hm, Ht, Hz, Hbs. reflexivity.
    + repeat rewrite <- app_assoc. reflexivity.
Qed.

Lemma length_entries_from off files :
  length (entries_from sha1 off files) = length files.
Proof.
  revert off. induction files as [|f files IH]; intros off; [reflexivity |].
  cbn. rewrite IH. reflexivity.
Qed.

(** The file that a successful call of [_create_pak_file] leaves:
    1024 zero bytes, the data of the files, the index (mount point,
    entry count, entries) and a footer of 41 bytes. *)
Lemma create_pak_file_shape files out :
  PAKManager.written (PAKManager._create_pak_file sha1 extractor files)
  = (Ok tt, out) ->
  exists mpb cnt ebs v4 o8 s8,
    string_bytes (written_mount_point extractor) = Ok mpb
    /\ pack_I (Z.of_nat (length files)) = Ok cnt
    /\ entries_bytes (entries_from sha1 1024 files) = Ok ebs
    /\ pack_I (written_version extractor) = Ok v4
    /\ pack_Q (1024 + total_size files) = Ok o8
    /\ pack_Q (Z.of_nat (length (mpb ++ cnt ++ ebs))) = Ok s8
    /\ out = repeat x00 1024 ++ concat (map PAKManager.file_data files)
             ++ (mpb ++ cnt ++ ebs) ++ written_footer v4 o8 s8.
Proof.
  unfold PAKManager.written, PAKManager._create_pak_file. intros H.
  remember (repeat x00 1024) as zeros eqn:Ez in H.
  assert (Hz : length zeros = 1024%nat) by (rewrite Ez; apply repeat_length).
  apply w_bind_ok in H as (? & m1 & H1 & H).
  apply write_ok_inv in H1 as ->.
  apply w_bind_ok in H as (r & m2 & H2 & H).
  rewrite write_files_run in H2. injection H2 as <- <-.
  cbn [fst snd app] in H. cbv zeta in H.
  apply w_bind_ok in H as (? & m3 & H3 & H).
  apply write_string_ok_inv in H3 as (mpb & Hmp & ->).
  apply w_bind_ok in H as (? & m4 & H4 & H).
  apply write_packed_ok_inv in H4 as (cnt & Hcnt & ->).
  apply w_bind_ok in H as (? & m5 & H5 & H).
  apply write_entries_ok_inv in H5 as (ebs & Hebs & ->).
  apply w_bind_ok in H as (t & m6 & H6 & H).
  unfold PAKManager.tell in H6. injection H6 as <- <-.
  apply w_bind_ok in H as (? & m7 & H7 & H).
  apply write_ok_inv in H7 as ->.
  apply w_bind_ok in H as (? & m8 & H8 & H).
  apply write_packed_ok_inv in H8 as (fl & Hfl & ->).
  apply w_bind_ok in H as (? & m9 & H9 & H).
  apply write_packed_ok_inv in H9 as (mg & Hmg & ->).
  apply w_bind_ok in H as (? & m10 & H10 & H).
  apply write_packed_ok_inv in H10 as (v4 & Hv4 & ->).
  apply w_bind_ok in H as (? & m11 & H11 & H).
  apply write_packed_ok_inv in H11 as (o8 & Ho8 & ->).
  apply write_packed_ok_inv in H as (s8 & Hs8 & ->).
  rewrite length_entries_from in Hcnt.
  assert (Efl : fl = [x00]) by (vm_compute in Hfl; congruence).
  assert (Emg : mg = [xe1; x12; x6f; x5a]) by (vm_compute in Hmg; congruence).
  subst fl mg.
  exists mpb, cnt, ebs, v4, o8, s8.
  repeat (split; [first [assumption | reflexivity] |]).
  repeat split; try assumption.
  - rewrite <- Hs8. f_equal.
    repeat rewrite length_app. rewrite Hz.
    unfold total_size. lia.
  - rewrite <- Ez. unfold written_footer.
    repeat rewrite <- app_assoc. reflexivity.
Qed.

End WriterRuns.

Lemma last_three (b : bytes) :
  (3 <= length b)%nat -> exists b' x y z, b = b' ++ [x; y; z].
Proof.
  intros H. rewrite <- (take_drop (length b - 3) b).
  assert (Hd : length (drop (length b - 3) b) = 3%nat)
    by (rewrite length_drop; lia).
  destruct (drop (length b - 3) b) as [|x [|y [|z [|? ?]]]]; try discriminate.
  eauto.
Qed.

Lemma read_at_middle (a d b : bytes) :
  read_at (a ++ d ++ b) (N.of_nat (length a)) (N.of_nat (length d)) = d.
Proof.
  unfold read_at. rewrite !Nat2N.id.
  rewrite drop_app_length. apply take_app_length.
Qed.

(** An entry that is neither encrypted nor compressed and whose range
    is the part [d] of the file [a ++ d ++ b]. *)
Lemma extract_middle {host : Host} zlib_decompress (a d b : bytes)
  (e : UnrealPakEntry.t) (self : extractor) :
  UnrealPakEntry.encrypted e = false ->
  UnrealPakEntry.is_compressed e = false ->
  UnrealPakEntry.offset e = N.of_nat (length a) ->
  UnrealPakEntry.uncompressed_size e = N.of_nat (length d) ->
  call (extract_file_data zlib_decompress (a ++ d ++ b) e) self
  = (Ok (Some d), self,
     [EvOpen; EvSeek (UnrealPakEntry.offset e);
      EvRead (Z.of_N (UnrealPakEntry.uncompressed_size e))]).
Proof.
  intros Henc Hcomp Ho Hs.
  rewrite extract_not_compressed_inside; try assumption.
  - rewrite Ho, Hs, read_at_middle. reflexivity.
  - rewrite Ho, Hs, !length_app. lia.
Qed.

(** The file [f] of the list, in what the writer wrote of the list. *)
Lemma written_data_split files i f (pre post : bytes) :
  files !! i = Some f ->
  pre ++ concat (map PAKManager.file_data files) ++ post
  = (pre ++ concat (map PAKManager.file_data (take i files)))
    ++ PAKManager.file_data f
    ++ (concat (map PAKManager.file_data (drop (S i) files)) ++ post).
Proof.
  intros Hf. rewrite <- (take_drop_middle files i f Hf) at 1.
  rewrite map_app, concat_app. cbn [map concat].
  repeat rewrite <- app_assoc. reflexivity.
Qed.

(** The entry that the reader builds from the index entry of [f] is
    extracted as the content of [f]. *)
Lemma extract_written_file {host : Host} zlib_decompress sha1 files i f
  (post : bytes) mp self :
  files !! i = Some f ->
  call (extract_file_data zlib_decompress
          (repeat x00 1024 ++ concat (map PAKManager.file_data files) ++ post)
          (entry_read_back mp
             (PAKManager.FileEntry (PAKManager.rel_path f)
                (1024 + total_size (take i files))
                (Z.of_nat (length (PAKManager.file_data f)))
                (Z.of_nat (length (PAKManager.file_data f)))
                0 (PAKManager.mtime f) (sha1 (PAKManager.file_data f)))))
       self
  = (Ok (Some (PAKManager.file_data f)), self,
     [EvOpen; EvSeek (Z.to_N (1024 + total_size (take i files)));
      EvRead (Z.of_nat (length (PAKManager.file_data f)))]).
Proof.
  intros Hf. rewrite (written_data_split files i f _ post Hf).
  rewrite extract_middle.
  - cbn [entry_read_back UnrealPakEntry.offset UnrealPakEntry.uncompressed_size
         PAKManager.fe_offset PAKManager.fe_size].
    rewrite Z2N.id by lia. reflexivity.
  - reflexivity.
  - reflexivity.
  - cbn [entry_read_back UnrealPakEntry.offset PAKManager.fe_offset].
    rewrite length_app, repeat_length. unfold total_size. lia.
  - cbn [entry_read_back UnrealPakEntry.uncompressed_size PAKManager.fe_size].
    lia.
Qed.

Lemma entries_from_lookup sha1 files : forall off i e,
  entries_from sha1 off files !! i = Some e ->
  exists f,
    files !! i = Some f
    /\ e = PAKManager.FileEntry (PAKManager.rel_path f)
             (off + total_size (take i files))
             (Z.of_nat (length (PAKManager.file_data f)))
             (Z.of_nat (length (PAKManager.file_data f)))
             0 (PAKManager.mtime f) (sha1 (PAKManager.file_data f)).
Proof.
  induction files as [|f files IH]; intros off i e H; [discriminate |].
  destruct i as [|i]; cbn in H.
  - injection H as <-. exists f. split; [reflexivity |].
    unfold total_size. cbn. rewrite Z.add_0_r. reflexivity.
  - apply IH in H as (f' & Hf' & ->). exists f'. split; [exact Hf' |].
    unfold total_size. cbn [take map concat].
    rewrite length_app, Nat2Z.inj_add, Z.add_assoc. reflexivity.
Qed.

(** X12.  The file that [_create_pak_file] writes is never accepted by
    the reader of the same repository: its footer has 41 bytes, so the
    magic is neither at [17..21] of the last 44 bytes nor at [0..4] of
    the last 28, and [parse_footer] and [parse] return [False]. *)
Theorem repacked_file_is_rejected {host : Host} :
  forall (sha1 : bytes -> bytes) (extractor : option extractor)
         (files : list PAKManager.packed_file) (out : bytes) (self : UnrealPakExtractor.extractor),
    PAKManager.written (PAKManager._create_pak_file sha1 extractor files)
    = (Ok tt, out) ->
    call (parse_footer out) self = (Ok false, self, older_footer_log)
    /\ call (parse out) self = (Ok false, self, older_footer_log).
Proof.
  intros sha1 extractor files out self H.
  apply create_pak_file_shape in H
    as (mpb & cnt & ebs & v4 & o8 & s8 & _ & _ & _ & Hv & Ho & Hs & ->).
  apply pack_le_inv in Hv as (_ & _ & Hv).
  apply pack_le_inv in Ho as (_ & _ & Ho).
  apply pack_le_inv in Hs as (_ & _ & Hs).
  set (body := repeat x00 1024 ++ concat (map PAKManager.file_data files)
               ++ mpb ++ cnt ++ ebs).
  assert (Hbody : (1024 <= length body)%nat).
  { unfold body. rewrite length_app, repeat_length. lia. }
  assert (Eout : repeat x00 1024 ++ concat (map PAKManager.file_data files)
                 ++ (mpb ++ cnt ++ ebs) ++ written_footer v4 o8 s8
                 = body ++ written_footer v4 o8 s8).
  { unfold body. repeat rewrite <- app_assoc. reflexivity. }
  rewrite Eout. clear Eout.
  destruct (last_three body) as (body' & x & y & z & Ebody); [lia |].
  assert (Hf : length (written_footer v4 o8 s8) = 41%nat).
  { unfold written_footer. rewrite !length_app, Hv, Ho, Hs. reflexivity. }
  assert (Hnew : last_bytes 44 (body ++ written_footer v4 o8 s8)
                 = [x; y; z] ++ written_footer v4 o8 s8).
  { rewrite Ebody, <- app_assoc.
    replace 44%nat with (length ([x; y; z] ++ written_footer v4 o8 s8))
      by (rewrite length_app, Hf; reflexivity).
    apply last_bytes_app. }
  assert (Hold : last_bytes 28 (body ++ written_footer v4 o8 s8)
                 = [x00; x00; x00; x00] ++ [xe1; x12; x6f; x5a] ++ v4 ++ o8 ++ s8).
  { replace (body ++ written_footer v4 o8 s8)
      with ((body ++ repeat x00 13)
            ++ [x00; x00; x00; x00] ++ [xe1; x12; x6f; x5a] ++ v4 ++ o8 ++ s8)
      by (unfold written_footer; rewrite <- app_assoc; reflexivity).
    replace 28%nat
      with (length ([x00; x00; x00; x00] ++ [xe1; x12; x6f; x5a] ++ v4 ++ o8 ++ s8))
      by (rewrite !length_app, Hv, Ho, Hs; reflexivity).
    apply last_bytes_app. }
  assert (Hfooter : call (parse_footer (body ++ written_footer v4 o8 s8)) self
                    = (Ok false, self, older_footer_log)).
  { rewrite parse_footer_unfold by (rewrite length_app; lia).
    cbv zeta. rewrite Hnew, Hold. reflexivity. }
  split; [exact Hfooter |].
  destruct (parse_decompose (body ++ written_footer v4 o8 s8) self)
    as (ok1 & s1 & l1 & Hf' & _ & Hfalse & _).
  rewrite Hfooter in Hf'. injection Hf' as <- <- <-.
  apply Hfalse. reflexivity.
Qed.

(** Witness of X12: two files packed with the mount point "../". *)
Lemma repacked_file_is_rejected_witness :
  PAKManager.written
    (PAKManager._create_pak_file toy_sha1 (Some (mk 8 0 0 [46; 46; 47] false ∅))
       two_files)
  = (Ok tt,
     (PAKManager.written
        (PAKManager._create_pak_file toy_sha1
           (Some (mk 8 0 0 [46; 46; 47] false ∅)) two_files)).2)
  /\ call (parse
             (PAKManager.written
                (PAKManager._create_pak_file toy_sha1
                   (Some (mk 8 0 0 [46; 46; 47] false ∅)) two_files)).2) init
     = (Ok false, init, older_footer_log).
Proof.
  assert (H : PAKManager.written
                (PAKManager._create_pak_file toy_sha1
                   (Some (mk 8 0 0 [46; 46; 47] false ∅)) two_files)
              = (Ok tt,
                 (PAKManager.written
                    (PAKManager._create_pak_file toy_sha1
                       (Some (mk 8 0 0 [46; 46; 47] false ∅)) two_files)).2))
    by (vm_compute; reflexivity).
  split; [exact H |].
  exact (proj2 (repacked_file_is_rejected toy_sha1 _ two_files _ init H)).
Defined.

(** X13.  The data of every packed file lies in the written file at
    the offset and with the size that its index entry records: the
    entry that the reader would build from them is extracted as the
    content of the file, with one seek and one read. *)
Theorem packed_file_is_extractable {host : Host} :
  forall (sha1 : bytes -> bytes) (extractor : option extractor)
         (files : list PAKManager.packed_file) (out : bytes)
         (zlib_decompress : Z -> bytes -> option bytes)
         (i : nat) (e : PAKManager.file_entry) (mp : str)
         (self : UnrealPakExtractor.extractor),
    PAKManager.written (PAKManager._create_pak_file sha1 extractor files)
    = (Ok tt, out) ->
    entries_from sha1 1024 files !! i = Some e ->
    exists f,
      files !! i = Some f
      /\ PAKManager.fe_filename e = PAKManager.rel_path f
      /\ call (extract_file_data zlib_decompress out (entry_read_back mp e)) self
         = (Ok (Some (PAKManager.file_data f)), self,
            [EvOpen; EvSeek (Z.to_N (PAKManager.fe_offset e));
             EvRead (PAKManager.fe_size e)]).
Proof.
  intros sha1 extractor files out zlib i e mp self H He.
  apply create_pak_file_shape in H
    as (mpb & cnt & ebs & v4 & o8 & s8 & _ & _ & _ & _ & _ & _ & ->).
  apply entries_from_lookup in He as (f & Hf & ->).
  exists f. split; [exact Hf |]. split; [reflexivity |].
  apply extract_written_file. exact Hf.
Qed.

(** Witness of X13: the second of two packed files. *)
Lemma packed_file_is_extractable_witness :
  exists f,
    two_files !! 1%nat = Some f
    /\ [100; 47; 98] = PAKManager.rel_path f
    /\ call (extract_file_data toy_zlib
               (PAKManager.written
                  (PAKManager._create_pak_file toy_sha1 None two_files)).2
               (entry_read_back []
                  (PAKManager.FileEntry [100; 47; 98] 1027 2 2 0 43 (repeat x00 20))))
            init
       = (Ok (Some (PAKManager.file_data f)), init,
          [EvOpen; EvSeek 1027; EvRead 2]).
Proof.
  apply (packed_file_is_extractable toy_sha1 None two_files _ toy_zlib 1
           (PAKManager.FileEntry [100; 47; 98] 1027 2 2 0 43 (repeat x00 20))
           [] init).
  - vm_compute; reflexivity.
  - reflexivity.
Defined.

(** ** Reading back what the writer wrote *)

Section ReadBack.

Context {host : Host}.

Variable pak : bytes.

Lemma cursor_after (p : N) (b rest : bytes) :
  drop (N.to_nat p) pak = b ++ rest ->
  drop (N.to_nat (p + N.of_nat (length b))) pak = rest.
Proof.
  intros H.
  replace (N.to_nat (p + N.of_nat (length b)))
    with (N.to_nat p + length b)%nat by lia.
  rewrite <- drop_drop, H. apply drop_app_length.
Qed.

Lemma consumes_ret {A} (a : A) s : consumes pak (ret a) s [] a s.
Proof.
  intros w rest Hs _. exists []. unfold ret.
  rewrite app_nil_r, N.add_0_r. destruct w; cbn in *; subst; reflexivity.
Qed.

Lemma consumes_bind {A B} (m : M A) (k : A -> M B) s b1 a s1 b2 c s2 :
  consumes pak m s b1 a s1 ->
  consumes pak (k a) s1 b2 c s2 ->
  consumes pak (bind m k) s (b1 ++ b2) c s2.
Proof.
  intros Hm Hk w rest Hs Hd.
  rewrite <- app_assoc in Hd.
  destruct (Hm w (b2 ++ rest) Hs Hd) as (l1 & E1).
  apply cursor_after in Hd.
  destruct (Hk (World s1 (w_pos w + N.of_nat (length b1)) (w_log w ++ l1)) rest
              eq_refl Hd) as (l2 & E2).
  exists (l1 ++ l2). unfold bind. rewrite E1, E2. cbn [w_pos w_log].
  rewrite length_app, Nat2N.inj_add, N.add_assoc, app_assoc. reflexivity.
Qed.

Lemma consumes_pure {A B} (m : M A) (k : A -> M B) s a s1 b c s2 :
  consumes pak m s [] a s1 ->
  consumes pak (k a) s1 b c s2 ->
  consumes pak (bind m k) s b c s2.
Proof. intros Hm Hk. exact (consumes_bind m k s [] a s1 b c s2 Hm Hk). Qed.

Lemma consumes_last {A B} (m : M A) (k : A -> M B) s b a s1 c s2 :
  consumes pak m s b a s1 ->
  consumes pak (k a) s1 [] c s2 ->
  consumes pak (bind m k) s b c s2.
Proof.
  intros Hm Hk. rewrite <- (app_nil_r b).
  exact (consumes_bind m k s b a s1 [] c s2 Hm Hk).
Qed.

Lemma consumes_try {A} (m : M A) (h : exn -> M A) s b a s' :
  consumes pak m s b a s' -> consumes pak (try_except m h) s b a s'.
Proof.
  intros Hm w rest Hs Hd. destruct (Hm w rest Hs Hd) as (l & E).
  exists l. unfold try_except. rewrite E. reflexivity.
Qed.

Lemma consumes_lift {A} (a : A) s : consumes pak (lift (Ok a)) s [] a s.
Proof. apply (consumes_ret a). Qed.

Lemma consumes_get_self s : consumes pak get_self s [] s s.
Proof.
  intros w rest Hs _. exists []. unfold get_self.
  rewrite app_nil_r, N.add_0_r. destruct w; cbn in *; subst; reflexivity.
Qed.

Lemma consumes_set_self f s : consumes pak (set_self f) s [] tt (f s).
Proof.
  intros w rest Hs _. exists []. unfold set_self.
  rewrite app_nil_r, N.add_0_r. subst. reflexivity.
Qed.

Lemma consumes_f_read (b : bytes) s :
  consumes pak (f_read pak (Z.of_nat (length b))) s b b s.
Proof.
  intros w rest Hs Hd. exists [EvRead (Z.of_nat (length b))].
  assert (Hin : (length b <= length pak)%nat).
  { pose proof (f_equal length Hd) as Hl.
    rewrite length_drop, length_app in Hl. lia. }
  rewrite f_read_ok by (first [lia | apply readable_inside; lia]).
  cbv zeta. rewrite Hd, Nat2Z.id, take_app_length.
  unfold set_pos, log. cbn [w_self w_pos w_log]. subst. reflexivity.
Qed.

Lemma consumes_read_Q v b s :
  pack_Q v = Ok b -> consumes pak (read_Q pak) s b (Z.to_N v) s.
Proof.
  intros H. unfold read_Q.
  eapply consumes_last.
  - replace 8%Z with (Z.of_nat (length b))
      by (apply pack_le_inv in H as (_ & _ & ->); reflexivity).
    apply consumes_f_read.
  - unfold unpack_Q. rewrite (unpack_pack_le 8 v b H). apply consumes_lift.
Qed.

Lemma consumes_read_I v b s :
  pack_I v = Ok b -> consumes pak (read_I pak) s b (Z.to_N v) s.
Proof.
  intros H. unfold read_I.
  eapply consumes_last.
  - replace 4%Z with (Z.of_nat (length b))
      by (apply pack_le_inv in H as (_ & _ & ->); reflexivity).
    apply consumes_f_read.
  - unfold unpack_I. rewrite (unpack_pack_le 4 v b H). apply consumes_lift.
Qed.


Lemma byte_of_N_high n : 128 <= n < 256 -> (Byte.to_N (byte_of_N n) <? 128) = false.
Proof. intros H. rewrite to_N_byte_of_N by lia. apply N.ltb_ge. lia. Qed.

Lemma decode_ascii_app (a b : bytes) :
  decode_ascii (a ++ b) = decode_ascii a ++ decode_ascii b.
Proof.
  induction a as [|x a IH]; [reflexivity |].
  cbn. destruct (Byte.to_N x <? 128); cbn; rewrite IH; reflexivity.
Qed.

Lemma decode_utf8_char c b :
  utf8_char c = Ok b ->
  decode_ascii b = if bool_decide (c < 128) then [c] else [].
Proof.
  unfold utf8_char. change 0x80 with 128.
  destruct (N.ltb_spec c 128).
  - intros [= <-]. rewrite bool_decide_eq_true_2 by assumption.
    cbn. rewrite to_N_byte_of_N by lia.
    destruct (N.ltb_spec c 128); [reflexivity | lia].
  - rewrite bool_decide_eq_false_2 by lia.
    destruct (N.ltb_spec c 0x800).
    { intros [= <-]. cbn [decode_ascii].
      rewrite !byte_of_N_high by lia. reflexivity. }
    destruct (is_surrogate c); [discriminate |].
    destruct (N.ltb_spec c 0x10000).
    { intros [= <-]. cbn [decode_ascii].
      rewrite !byte_of_N_high by lia. reflexivity. }
    destruct (N.ltb_spec c 0x110000); [| discriminate].
    intros [= <-]. cbn [decode_ascii].
    rewrite !byte_of_N_high by lia. reflexivity.
Qed.

Lemma decode_utf8_encode (s : str) b :
  utf8_encode s = Ok b -> decode_ascii b = ascii_only s.
Proof.
  revert b. induction s as [|c s IH]; intros b H.
  - injection H as <-. reflexivity.
  - cbn [utf8_encode] in H.
    destruct (utf8_char c) as [x|] eqn:Ec; [| discriminate].
    destruct (utf8_encode s) as [r|]; [| discriminate].
    injection H as <-.
    rewrite decode_ascii_app, (decode_utf8_char c x Ec), (IH r eq_refl).
    unfold ascii_only, str. rewrite filter_cons.
    destruct (decide (c < 128)) as [Hc|Hc].
    + rewrite bool_decide_eq_true_2 by assumption. reflexivity.
    + rewrite bool_decide_eq_false_2 by assumption. reflexivity.
Qed.

Lemma rstrip_app_same c (s : str) : rstrip c (s ++ [c]) = rstrip c s.
Proof.
  induction s as [|d s IH].
  - cbn. rewrite N.eqb_refl. reflexivity.
  - cbn [app rstrip]. rewrite IH. reflexivity.
Qed.

Lemma rstrip_id c (s : str) : Forall (fun d => d <> c) s -> rstrip c s = s.
Proof.
  induction 1 as [|d s Hd Hs IH]; [reflexivity |].
  cbn [rstrip]. rewrite IH.
  destruct s; [| reflexivity].
  destruct (N.eqb_spec d c); [contradiction | reflexivity].
Qed.

Lemma ascii_only_id (s : str) : Forall (fun c => c < 128) s -> ascii_only s = s.
Proof.
  unfold ascii_only, str. induction 1 as [|c s Hc Hs IH]; [reflexivity |].
  rewrite filter_cons_True by assumption. rewrite IH. reflexivity.
Qed.

Lemma ascii_text_read_back (s : str) :
  ascii_text s -> rstrip NUL (ascii_only s) = s.
Proof.
  intros H. rewrite ascii_only_id.
  - apply rstrip_id. eapply Forall_impl; [exact H |].
    unfold NUL. cbn. intros; lia.
  - eapply Forall_impl; [exact H |]. cbn. intros; lia.
Qed.

Lemma consumes_read_string (t : str) enc s :
  string_bytes t = Ok enc ->
  consumes pak (read_string pak) s enc (rstrip NUL (ascii_only t)) s.
Proof.
  unfold string_bytes. intros H. unfold read_string.
  destruct (bool_decide_reflect (t = [])) as [->|Hne].
  - apply pack_i_inv in H as (_ & Hl & Hu).
    eapply consumes_last.
    + replace 4%Z with (Z.of_nat (length enc)) by (rewrite Hl; reflexivity).
      apply consumes_f_read.
    + rewrite Hu. eapply consumes_pure; [apply consumes_lift |].
      cbn. apply consumes_ret.
  - unfold res_bind in H.
    destruct (utf8_encode t) as [b|] eqn:Eb; [| discriminate].
    destruct (pack_i _) as [h|] eqn:Eh; [| discriminate].
    injection H as <-.
    apply pack_i_inv in Eh as (_ & Hl & Hu).
    eapply consumes_bind.
    + replace 4%Z with (Z.of_nat (length h)) by (rewrite Hl; reflexivity).
      apply consumes_f_read.
    + rewrite Hu. eapply consumes_pure; [apply consumes_lift |].
      cbv beta.
      destruct (Z.eqb_spec (Z.of_nat (length (b ++ [x00]))) 0) as [E0|_].
      { rewrite length_app in E0. cbn in E0. lia. }
      destruct (Z.ltb_spec (Z.of_nat (length (b ++ [x00]))) 0) as [E0|_]; [lia |].
      eapply consumes_last; [apply consumes_f_read |].
      rewrite decode_ascii_app, (decode_utf8_encode t b Eb).
      change (decode_ascii [x00]) with [NUL].
      rewrite rstrip_app_same. apply consumes_ret.
Qed.


(** An entry as the writer writes it: the reader stops before the
    block count. *)
Lemma parse_entry_written e eb s :
  entry_bytes e = Ok eb ->
  ascii_path (PAKManager.fe_filename e) ->
  length (PAKManager.fe_hash e) = 20%nat ->
  PAKManager.fe_compression e = 0%Z ->
  8 <= pak_version s ->
  exists body,
    eb = body ++ repeat x00 4
    /\ consumes pak (parse_entry pak) s body tt
         (with_entries s
            (<[normalize_path (mount_point s) (PAKManager.fe_filename e)
               := entry_read_back (mount_point s) e]> (entries s))).
Proof.
  intros H [Hne Hname] Hhash Hcomp Hver.
  unfold entry_bytes, res_bind in H.
  destruct (string_bytes _) as [n|] eqn:En; [| discriminate].
  destruct (pack_Q (PAKManager.fe_offset e)) as [o|] eqn:Eo; [| discriminate].
  destruct (pack_Q (PAKManager.fe_compressed_size e)) as [c|] eqn:Ec; [| discriminate].
  destruct (pack_Q (PAKManager.fe_size e)) as [u|] eqn:Eu; [| discriminate].
  destruct (pack_I (PAKManager.fe_compression e)) as [m|] eqn:Em; [| discriminate].
  destruct (pack_Q (PAKManager.fe_timestamp e)) as [t|] eqn:Et; [| discriminate].
  cbn in H. injection H as <-.
  exists (n ++ o ++ c ++ u ++ m ++ t ++ PAKManager.fe_hash e).
  split; [repeat rewrite <- app_assoc; reflexivity |].
  unfold parse_entry.
  eapply consumes_bind; [apply consumes_read_string; exact En |].
  rewrite (ascii_text_read_back _ Hname).
  rewrite bool_decide_eq_false_2 by exact Hne.
  eapply consumes_pure; [apply consumes_get_self |]. cbv zeta.
  eapply consumes_bind; [apply consumes_read_Q; exact Eo |].
  eapply consumes_bind; [apply consumes_read_Q; exact Ec |].
  eapply consumes_bind; [apply consumes_read_Q; exact Eu |].
  eapply consumes_bind; [apply consumes_read_I; exact Em |].
  replace (8 <=? pak_version s) with true by (symmetry; apply N.leb_le; exact Hver).
  eapply consumes_bind; [apply consumes_read_Q; exact Et |].
  eapply consumes_last.
  { replace 20%Z with (Z.of_nat (length (PAKManager.fe_hash e)))
      by (rewrite Hhash; reflexivity).
    apply consumes_f_read. }
  rewrite Hcomp. change (Z.to_N 0) with 0.
  change (negb (0 =? COMPRESS_None)) with false. cbv iota.
  eapply consumes_pure; [apply consumes_ret |].
  unfold set_entry.
  replace (with_entries s _)
    with ((fun s0 => mk (pak_version s0) (index_offset s0) (index_size s0)
                       (mount_point s0) (encrypted s0)
                       (<[normalize_path (mount_point s) (PAKManager.fe_filename e)
                          := entry_read_back (mount_point s) e]> (entries s0))) s)
    by reflexivity.
  unfold entry_read_back.
  apply consumes_set_self.
Qed.

(** The four zero bytes of a block count, read where a name is
    expected, are an empty name: the iteration stores nothing. *)
Lemma parse_entry_skip s : consumes pak (parse_entry pak) s (repeat x00 4) tt s.
Proof.
  unfold parse_entry.
  eapply consumes_last.
  - apply (consumes_read_string []). reflexivity.
  - cbn. apply consumes_ret.
Qed.

Lemma with_entries_same s : with_entries s (entries s) = s.
Proof. destruct s; reflexivity. Qed.

Lemma parse_entries_written : forall k es ebs s,
  entries_bytes es = Ok ebs ->
  Forall (fun e => ascii_path (PAKManager.fe_filename e)
                   /\ length (PAKManager.fe_hash e) = 20%nat
                   /\ PAKManager.fe_compression e = 0%Z) es ->
  8 <= pak_version s ->
  (Nat.div2 (S k) <= length es)%nat ->
  exists b tl,
    ebs = b ++ tl
    /\ consumes pak (parse_entries pak k) s b tt
         (with_entries s
            (store_all (mount_point s) (take (Nat.div2 (S k)) es) (entries s))).
Proof.
  assert (Hone : forall e es ebs s,
    entries_bytes (e :: es) = Ok ebs ->
    Forall (fun e => ascii_path (PAKManager.fe_filename e)
                     /\ length (PAKManager.fe_hash e) = 20%nat
                     /\ PAKManager.fe_compression e = 0%Z) (e :: es) ->
    8 <= pak_version s ->
    exists body bs,
      ebs = body ++ repeat x00 4 ++ bs
      /\ entries_bytes es = Ok bs
      /\ consumes pak (try_except (parse_entry pak) (fun _ => ret tt)) s body tt
           (with_entries s
              (<[normalize_path (mount_point s) (PAKManager.fe_filename e)
                 := entry_read_back (mount_point s) e]> (entries s)))).
  { intros e es ebs s H Hgood Hver.
    cbn [entries_bytes] in H. unfold res_bind in H.
    destruct (entry_bytes e) as [eb|] eqn:Ee; [| discriminate].
    destruct (entries_bytes es) as [bs|] eqn:Ebs; [| discriminate].
    injection H as <-.
    apply Forall_cons in Hgood as [(Hn & Hh & Hc) _].
    destruct (parse_entry_written e eb s Ee Hn Hh Hc Hver) as (body & -> & Hbody).
    exists body, bs. split; [rewrite <- app_assoc; reflexivity |].
    split; [reflexivity |]. apply consumes_try. exact Hbody. }
  assert (Hpair : forall k,
    (forall es ebs s,
      entries_bytes es = Ok ebs ->
      Forall (fun e => ascii_path (PAKManager.fe_filename e)
                       /\ length (PAKManager.fe_hash e) = 20%nat
                       /\ PAKManager.fe_compression e = 0%Z) es ->
      8 <= pak_version s ->
      (Nat.div2 (S k) <= length es)%nat ->
      exists b tl,
        ebs = b ++ tl
        /\ consumes pak (parse_entries pak k) s b tt
             (with_entries s
                (store_all (mount_point s) (take (Nat.div2 (S k)) es) (entries s))))
    /\
    (forall es ebs s,
      entries_bytes es = Ok ebs ->
      Forall (fun e => ascii_path (PAKManager.fe_filename e)
                       /\ length (PAKManager.fe_hash e) = 20%nat
                       /\ PAKManager.fe_compression e = 0%Z) es ->
      8 <= pak_version s ->
      (Nat.div2 (S (S k)) <= length es)%nat ->
      exists b tl,
        ebs = b ++ tl
        /\ consumes pak (parse_entries pak (S k)) s b tt
             (with_entries s
                (store_all (mount_point s) (take (Nat.div2 (S (S k))) es)
                   (entries s))))).
  { induction k as [|k [IH0 IH1]].
    - split.
      + intros es ebs s _ _ _ _. exists [], ebs. split; [reflexivity |].
        cbn. unfold store_all. cbn. rewrite with_entries_same.
        apply consumes_ret.
      + intros es ebs s H Hgood Hver Hlen.
        destruct es as [|e es]; [cbn in Hlen; lia |].
        destruct (Hone e es ebs s H Hgood Hver) as (body & bs & -> & _ & Hbody).
        exists body, (repeat x00 4 ++ bs). split; [reflexivity |].
        cbn [parse_entries].
        eapply consumes_last; [exact Hbody |].
        apply consumes_ret.
    - split; [exact IH1 |].
      intros es ebs s H Hgood Hver Hlen.
      change (Nat.div2 (S (S (S k)))) with (S (Nat.div2 (S k))) in *.
      destruct es as [|e es]; [cbn in Hlen; lia |].
      destruct (Hone e es ebs s H Hgood Hver) as (body & bs & -> & Hbs & Hbody).
      apply Forall_cons in Hgood as [_ Hgood].
      destruct (IH0 es bs
                  (with_entries s
                     (<[normalize_path (mount_point s) (PAKManager.fe_filename e)
                        := entry_read_back (mount_point s) e]> (entries s)))
                  Hbs Hgood Hver) as (b & tl & -> & Hb).
      { cbn [length] in Hlen. lia. }
      exists (body ++ repeat x00 4 ++ b), tl.
      split; [repeat rewrite <- app_assoc; reflexivity |].
      cbn [parse_entries].
      eapply consumes_bind; [exact Hbody |].
      eapply consumes_bind.
      { apply consumes_try. apply parse_entry_skip. }
      exact Hb. }
  intros k. exact (proj1 (Hpair k)).
Qed.

End ReadBack.

Lemma entries_from_written_form sha1 files : forall off,
  (forall d, length (sha1 d) = 20%nat) ->
  Forall (fun f => ascii_path (PAKManager.rel_path f)) files ->
  Forall (fun e => ascii_path (PAKManager.fe_filename e)
                   /\ length (PAKManager.fe_hash e) = 20%nat
                   /\ PAKManager.fe_compression e = 0%Z)
    (entries_from sha1 off files).
Proof.
  intros off Hsha H. revert off.
  induction H as [|f files Hf _ IH]; intros off; cbn [entries_from].
  - constructor.
  - constructor; [| apply IH]. cbn. auto.
Qed.

(** X14.  [read_string] reads back what [_write_string] wrote: the
    string without its characters above 0x7F and without trailing
    null characters, hence the string itself when it is made of ASCII
    characters other than the null character; the cursor ends just after
    the written bytes. *)
Theorem written_string_is_read_back {host : Host} :
  forall (s : str) (enc pak : bytes) (w : world) (rest : bytes),
    PAKManager.written (PAKManager._write_string s) = (Ok tt, enc) ->
    drop (N.to_nat (w_pos w)) pak = enc ++ rest ->
    (exists l,
       read_string pak w
       = (Ok (rstrip NUL (ascii_only s)),
          World (w_self w) (w_pos w + N.of_nat (length enc)) (w_log w ++ l)))
    /\ (ascii_text s -> rstrip NUL (ascii_only s) = s).
Proof.
  intros s enc pak w rest H Hd. split; [| apply ascii_text_read_back].
  unfold PAKManager.written in H.
  apply write_string_ok_inv in H as (b & Hb & ->).
  exact (consumes_read_string pak s b (w_self w) Hb w rest eq_refl Hd).
Qed.

(** Witness of X14: the string "aé", of which "a" comes back. *)
Lemma written_string_is_read_back_witness :
  (exists l,
     read_string (PAKManager.written (PAKManager._write_string [97; 233])).2
       (World init 0 [])
     = (Ok (rstrip NUL (ascii_only [97; 233])),
        World init
          (0 + N.of_nat (length (PAKManager.written
                                   (PAKManager._write_string [97; 233])).2))
          ([] ++ l)))
  /\ (ascii_text [97; 233] -> rstrip NUL (ascii_only [97; 233]) = [97; 233]).
Proof.
  apply (written_string_is_read_back [97; 233]
           (PAKManager.written (PAKManager._write_string [97; 233])).2
           (PAKManager.written (PAKManager._write_string [97; 233])).2
           (World init 0 []) []).
  - vm_compute; reflexivity.
  - vm_compute; reflexivity.
Defined.

(** X15.  [parse_index], run at the index that [_create_pak_file]
    wrote, reads back the mount point and the entry count but only the
    first half of the entries: the writer ends every entry with a
    block count of four zero bytes that the reader does not expect
    after an uncompressed entry, so that every second iteration reads
    an empty name and stores nothing. *)
Theorem repacked_index_is_read_by_halves {host : Host} :
  forall (sha1 : bytes -> bytes) (extractor : option extractor)
         (files : list PAKManager.packed_file) (out : bytes)
         (self : UnrealPakExtractor.extractor),
    PAKManager.written (PAKManager._create_pak_file sha1 extractor files)
    = (Ok tt, out) ->
    (forall d, length (sha1 d) = 20%nat) ->
    Forall (fun f => ascii_path (PAKManager.rel_path f)) files ->
    ascii_text (written_mount_point extractor) ->
    (Z.of_nat (length files) <= 1000000)%Z ->
    encrypted self = false ->
    index_offset self = Z.to_N (1024 + total_size files) ->
    8 <= pak_version self ->
    exists l,
      call (parse_index out) self
      = (Ok true,
         read_back (written_mount_point extractor)
           (take (Nat.div2 (S (length files))) (entries_from sha1 1024 files))
           self,
         l).
Proof.
  intros sha1 extractor files out self H Hsha Hfiles Hmp Hcount Henc Hoff Hver.
  apply create_pak_file_shape in H
    as (mpb & cnt & ebs & v4 & o8 & s8 & Empb & Ecnt & Eebs & _ & _ & _ & ->).
  set (mp := written_mount_point extractor) in *.
  set (s1 := mk (pak_version self) (index_offset self) (index_size self) mp
                (encrypted self) (entries self)).
  destruct (parse_entries_written
              (repeat x00 1024 ++ concat (map PAKManager.file_data files)
               ++ (mpb ++ cnt ++ ebs) ++ written_footer v4 o8 s8)
              (length files) (entries_from sha1 1024 files) ebs s1 Eebs
              (entries_from_written_form sha1 files 1024 Hsha Hfiles) Hver)
    as (b & tl & -> & Hb).
  { rewrite length_entries_from.
    pose proof (Nat.lt_div2 (S (length files)) (Nat.lt_0_succ _)). lia. }
  set (pak := repeat x00 1024 ++ concat (map PAKManager.file_data files)
              ++ (mpb ++ cnt ++ b ++ tl) ++ written_footer v4 o8 s8) in *.
  assert (Hrest : consumes pak
            (mp0 <~ read_string pak ;;
             set_mount_point mp0 ;;;
             entry_count <~ read_I pak ;;
             if 1000000 <? entry_count then ret false
             else parse_entries pak (N.to_nat entry_count) ;;; ret true)
            self (mpb ++ cnt ++ b) true
            (read_back mp
               (take (Nat.div2 (S (length files))) (entries_from sha1 1024 files))
               self)).
  { eapply consumes_bind; [apply consumes_read_string; exact Empb |].
    rewrite (ascii_text_read_back _ Hmp).
    eapply consumes_pure; [apply consumes_set_self |]. fold s1.
    eapply consumes_bind; [apply consumes_read_I; exact Ecnt |].
    destruct (N.ltb_spec 1000000 (Z.to_N (Z.of_nat (length files)))) as [Hbig|_];
      [lia |].
    replace (N.to_nat (Z.to_N (Z.of_nat (length files)))) with (length files) by lia.
    eapply consumes_last; [exact Hb |].
    unfold read_back. rewrite <- Henc. apply consumes_ret. }
  assert (Hd : drop (N.to_nat (index_offset self)) pak
               = (mpb ++ cnt ++ b) ++ tl ++ written_footer v4 o8 s8).
  { unfold pak. rewrite Hoff, app_assoc.
    replace (N.to_nat (Z.to_N (1024 + total_size files)))
      with (length (repeat x00 1024 ++ concat (map PAKManager.file_data files)))
      by (rewrite length_app, repeat_length; unfold total_size; lia).
    rewrite drop_app_length. repeat rewrite <- app_assoc. reflexivity. }
  destruct (Hrest (World self (index_offset self)
                     [EvOpen; EvSeek (index_offset self)])
              (tl ++ written_footer v4 o8 s8) eq_refl Hd) as (l & El).
  assert (Hseek : seekable pak (index_offset self) = true).
  { apply seekable_inside. rewrite Hoff. unfold pak.
    rewrite !length_app, repeat_length. unfold total_size. lia. }
  exists ([EvOpen; EvSeek (index_offset self)] ++ l).
  unfold call, parse_index.
  unfold bind at 1. unfold get_self at 1. cbn [w_self]. rewrite Henc.
  unfold try_except. unfold bind at 1. unfold open_rb at 1.
  unfold bind at 1. rewrite f_seek_ok by exact Hseek.
  unfold set_pos, log. cbn [w_self w_pos w_log app].
  cbn [w_pos w_log] in El. rewrite El. reflexivity.
Qed.

(** Witness of X15: of two packed files only the first is read
    back. *)
Lemma repacked_index_is_read_by_halves_witness :
  exists l,
    call (parse_index
            (PAKManager.written
               (PAKManager._create_pak_file toy_sha1 None two_files)).2)
         (mk 8 1029 0 [] false ∅)
    = (Ok true,
       read_back PAKManager.default_mount_point
         (take 1 (entries_from toy_sha1 1024 two_files))
         (mk 8 1029 0 [] false ∅),
       l).
Proof.
  apply (repacked_index_is_read_by_halves toy_sha1 None two_files _
           (mk 8 1029 0 [] false ∅)).
  - vm_compute; reflexivity.
  - intros d. reflexivity.
  - repeat constructor; try discriminate; cbn; lia.
  - repeat constructor; cbn; lia.
  - cbn. lia.
  - reflexivity.
  - reflexivity.
  - cbn. lia.
Defined.






(** ** What the writer leaves *)

(** X17.  [_write_string] appends one whole record or nothing: when
    it returns, a four-byte signed length followed by exactly that many
    bytes, none for the empty string and a text that ends with a null
    byte otherwise; when the string cannot be encoded or is too long
    for the length field, it raises before the first write. *)
Theorem write_string_appends_a_record :
  forall (s : str) (out : bytes),
    (exists h payload,
       PAKManager._write_string s out = (Ok tt, out ++ h ++ payload)
       /\ unpack_i h = Ok (Z.of_nat (length payload))
       /\ (s = [] -> payload = [])
       /\ (s <> [] -> last payload = Some x00))
    \/ (exists e,
          PAKManager._write_string s out = (Raise e, out) /\ s <> []).
Proof.
  intros s out. rewrite write_string_run. unfold string_bytes.
  destruct (bool_decide_reflect (s = [])) as [->|Hne].
  - left. exists [x00; x00; x00; x00], []. repeat split; try reflexivity.
    intros H. contradiction.
  - unfold res_bind.
    destruct (utf8_encode s) as [b|e]; [| right; eauto].
    destruct (pack_i (Z.of_nat (length (b ++ [x00])))) as [h|e] eqn:Eh;
      [| right; eauto].
    left. exists h, (b ++ [x00]).
    apply pack_i_inv in Eh as (_ & _ & Hu).
    repeat split; try assumption.
    + intros H. contradiction.
    + intros _. apply last_snoc.
Qed.

(** X18.  The 41 bytes that end a written file hold the fields of the
    newer footer layout, counted from the start of these 41 bytes and
    not of the last 44: the flag 0 at 16, the magic number at 17, the
    version at 21, and at 25 and 33 an index offset and size that
    delimit the index exactly: the offset is 1024 plus the size of the
    data, and offset, size and the 41 bytes add up to the length of the
    file. *)
Theorem written_footer_delimits_the_index :
  forall (sha1 : bytes -> bytes) (extractor : option extractor)
         (files : list PAKManager.packed_file) (out : bytes),
    PAKManager.written (PAKManager._create_pak_file sha1 extractor files)
    = (Ok tt, out) ->
    exists io isz,
      unpack_B (slice (last_bytes 41 out) 16 17) = Ok 0
      /\ unpack_I (slice (last_bytes 41 out) 17 21) = Ok PAK_MAGIC
      /\ unpack_I (slice (last_bytes 41 out) 21 25)
         = Ok (Z.to_N (written_version extractor))
      /\ unpack_Q (slice (last_bytes 41 out) 25 33) = Ok io
      /\ unpack_Q (slice (last_bytes 41 out) 33 41) = Ok isz
      /\ Z.of_N io = (1024 + total_size files)%Z
      /\ io + isz + 41 = N.of_nat (length out).
Proof.
  intros sha1 extractor files out H.
  apply create_pak_file_shape in H
    as (mpb & cnt & ebs & v4 & o8 & s8 & _ & _ & _ & Hv & Ho & Hs & ->).
  pose proof (unpack_pack_le 4 _ _ Hv) as Uv.
  pose proof (unpack_pack_le 8 _ _ Ho) as Uo.
  pose proof (unpack_pack_le 8 _ _ Hs) as Us.
  apply pack_le_inv in Hv as (_ & _ & Lv).
  apply pack_le_inv in Ho as (Ro & _ & Lo).
  apply pack_le_inv in Hs as (Rs & _ & Ls).
  assert (Hf : length (written_footer v4 o8 s8) = 41%nat).
  { unfold written_footer. rewrite !length_app, Lv, Lo, Ls. reflexivity. }
  assert (Hlast :
    last_bytes 41 (repeat x00 1024 ++ concat (map PAKManager.file_data files)
                   ++ (mpb ++ cnt ++ ebs) ++ written_footer v4 o8 s8)
    = written_footer v4 o8 s8).
  { rewrite !app_assoc. rewrite <- Hf at 1. apply last_bytes_app. }
  rewrite Hlast.
  destruct v4 as [|v0 [|v1 [|v2 [|v3 [|? ?]]]]]; try discriminate.
  destruct o8 as [|o0 [|o1 [|o2 [|o3 [|o4 [|o5 [|o6 [|o7 [|? ?]]]]]]]]];
    try discriminate.
  destruct s8 as [|s0 [|s1 [|s2 [|s3 [|s4 [|s5 [|s6 [|s7 [|? ?]]]]]]]]];
    try discriminate.
  exists (Z.to_N (1024 + total_size files)),
         (Z.to_N (Z.of_nat (length (mpb ++ cnt ++ ebs)))).
  split; [reflexivity |]. split; [reflexivity |].
  split; [exact Uv |]. split; [exact Uo |].
  split.
  { exact Us. }
  split; [lia |].
  rewrite !length_app, repeat_length, Hf.
  unfold total_size in *. lia.
Qed.

(** Witness of X18: two files packed without an extractor. *)
Lemma written_footer_delimits_the_index_witness :
  exists io isz,
    unpack_B (slice (last_bytes 41
       (PAKManager.written (PAKManager._create_pak_file toy_sha1 None two_files)).2)
       16 17) = Ok 0
    /\ unpack_I (slice (last_bytes 41
       (PAKManager.written (PAKManager._create_pak_file toy_sha1 None two_files)).2)
       17 21) = Ok PAK_MAGIC
    /\ unpack_I (slice (last_bytes 41
       (PAKManager.written (PAKManager._create_pak_file toy_sha1 None two_files)).2)
       21 25) = Ok (Z.to_N (written_version None))
    /\ unpack_Q (slice (last_bytes 41
       (PAKManager.written (PAKManager._create_pak_file toy_sha1 None two_files)).2)
       25 33) = Ok io
    /\ unpack_Q (slice (last_bytes 41
       (PAKManager.written (PAKManager._create_pak_file toy_sha1 None two_files)).2)
       33 41) = Ok isz
    /\ Z.of_N io = (1024 + total_size two_files)%Z
    /\ io + isz + 41
       = N.of_nat (length
           (PAKManager.written
              (PAKManager._create_pak_file toy_sha1 None two_files)).2).
Proof.
  apply (written_footer_delimits_the_index toy_sha1 None two_files).
  vm_compute; reflexivity.
Defined.
